(** * gentleRpc: JSON-RPC 2.0 client and WebSocket server handler

    A shallow embedding of
    - the client-side response validation ([validateResponse] and its
      helpers),
    - the HTTP client of [client/http.ts] ([send], [processBatchArray],
      [processBatchObject], [Client.batch], [Client.call]),
    - the WebSocket handler of [server/ws.ts] ([partialEmitListener],
      [handleWs]),
    followed by the properties of the specification that concern them. *)

From Stdlib Require Import ZArith Ascii DecimalString.
From stdpp Require Import gmap strings list fin_maps.

#[local] Set Warnings "-register-all".
#[local] Open Scope Z_scope.
#[local] Open Scope string_scope.
#[local] Open Scope list_scope.

(** ** JavaScript values

    The values the code handles are decoded JSON, plus [undefined] (the
    types [unknown] and [JsonValue | undefined] of the source).  Numbers are
    only tested with [typeof], copied and used as property keys; they are
    never computed with, and are modelled by integers.  An object is a finite
    map from property names to values. *)

Inductive JsonValue : Type :=
| JUndefined
| JNull
| JBool (b : bool)
| JNumber (n : Z)
| JString (s : string)
| JArray (items : list JsonValue)
| JObject (props : gmap string JsonValue).

(** The [typeof] operator. *)
Definition typeof (v : JsonValue) : string :=
  match v with
  | JUndefined => "undefined"
  | JNull => "object"
  | JBool _ => "boolean"
  | JNumber _ => "number"
  | JString _ => "string"
  | JArray _ => "object"
  | JObject _ => "object"
  end.

(** [v === s] for a string literal [s], and [v === null]. *)
Definition strict_eq_string (v : JsonValue) (s : string) : bool :=
  match v with
  | JString t => String.eqb t s
  | _ => false
  end.

Definition strict_eq_null (v : JsonValue) : bool :=
  match v with
  | JNull => true
  | _ => false
  end.

Definition Array_isArray (v : JsonValue) : bool :=
  match v with
  | JArray _ => true
  | _ => false
  end.

(** The elements of an array. *)
Definition array_items (v : JsonValue) : list JsonValue :=
  match v with
  | JArray items => items
  | _ => []
  end.

(** ** Errors and completions *)

(** Modelled from the spec: [error.ts], which declares [BadServerDataError],
    is not among the sources.  The spec's StructuredError is
    [{ id, message, code, data? }]; the constructor is called as
    [new BadServerDataError(id, message, code, data)]. *)
Record BadServerDataError : Type := mkBadServerDataError {
  err_id : JsonValue;
  err_message : string;
  err_code : Z;
  err_data : JsonValue
}.

(** What a [throw] or a rejected promise carries: the client's structured
    error, or an error of the platform ([TypeError], [SyntaxError], ...). *)
Inductive JsError : Type :=
| StructuredError (e : BadServerDataError)
| NativeError (name message : string).

(** [err.message] *)
Definition error_message (e : JsError) : string :=
  match e with
  | StructuredError b => err_message b
  | NativeError _ msg => msg
  end.

(** The completion of an expression (a value or a [throw]) and the
    settlement of a promise (fulfilled or rejected). *)
Inductive Outcome (A : Type) : Type :=
| Return (a : A)
| Throw (e : JsError).

Arguments Return {A} a.
Arguments Throw {A} e.

(** [p.then(f)], and sequencing of statements that may throw. *)
Definition then_ {A B : Type} (p : Outcome A) (f : A -> Outcome B) : Outcome B :=
  match p with
  | Return a => f a
  | Throw e => Throw e
  end.

(** [p.catch(g)] *)
Definition catch_ {A : Type} (p : Outcome A) (g : JsError -> Outcome A) : Outcome A :=
  match p with
  | Return a => Return a
  | Throw e => g e
  end.

Notation "'let!' x ':=' p 'in' q" := (then_ p (fun x => q))
  (at level 10, x name, p at level 100, q at level 200).

(** ** Property access *)

(** [data?.key]: [undefined] on [undefined] and [null]; on an object the
    property or [undefined].  None of the keys the code reads is a
    property of a string, number, boolean or array. *)
Definition optional_member (data : JsonValue) (key : string) : JsonValue :=
  match data with
  | JObject props => default JUndefined (props !! key)
  | _ => JUndefined
  end.

(** [data.key]: a [TypeError] on [undefined] and [null]. *)
Definition member (data : JsonValue) (key : string) : Outcome JsonValue :=
  match data with
  | JUndefined => Throw (NativeError "TypeError" "Cannot read properties of undefined")
  | JNull => Throw (NativeError "TypeError" "Cannot read properties of null")
  | _ => Return (optional_member data key)
  end.

(** [key in data]: a [TypeError] unless [data] is an object. *)
Definition has_property (key : string) (data : JsonValue) : Outcome bool :=
  match data with
  | JObject props => Return (bool_decide (is_Some (props !! key)))
  | JArray _ => Return false
  | _ => Throw (NativeError "TypeError" "Cannot use 'in' operator")
  end.

(** ** Client-side validation (src/unnamed/part_000) *)

Definition validateRpcNotification (data : JsonValue) : Outcome bool :=
  if strict_eq_string (optional_member data "jsonrpc") "2.0" then
    let! method := member data "method" in
    if String.eqb (typeof method) "string" then
      let! id := member data "id" in
      Return (String.eqb (typeof id) "undefined")
    else Return false
  else Return false.

Definition validateRpcBasis (data : JsonValue) : Outcome bool :=
  if strict_eq_string (optional_member data "jsonrpc") "2.0" then
    let! id1 := member data "id" in
    if String.eqb (typeof id1) "number" then Return true
    else
      let! id2 := member data "id" in
      if String.eqb (typeof id2) "string" then Return true
      else
        let! id3 := member data "id" in
        Return (strict_eq_null id3)
  else Return false.

Definition validateRpcSuccess (data : JsonValue) : Outcome bool :=
  has_property "result" data.

Definition validateRpcFailure (data : JsonValue) : Outcome bool :=
  if String.eqb
       (typeof (optional_member (optional_member data "error") "code"))
       "number"
  then
    let! error := member data "error" in
    let! message := member error "message" in
    Return (String.eqb (typeof message) "string")
  else Return false.

Definition no_RPC_response : BadServerDataError :=
  mkBadServerDataError JNull "Received data is no RPC response object."
    (-32003) JUndefined.

(** The fields of the error thrown for a failure response.  [message] and
    [code] have been checked to be a string and a number. *)
Definition failure_error (data : JsonValue) : Outcome BadServerDataError :=
  let! id := member data "id" in
  let! error := member data "error" in
  let! message := member error "message" in
  let! code := member error "code" in
  let! edata := member error "data" in
  Return
    (mkBadServerDataError id
       (match message with JString s => s | _ => "" end)
       (match code with JNumber n => n | _ => 0 end)
       edata).

Definition validateResponse (data : JsonValue) : Outcome JsonValue :=
  let! basis := validateRpcBasis data in
  if (basis : bool) then
    let! success := validateRpcSuccess data in
    if (success : bool) then Return data
    else
      let! failure := validateRpcFailure data in
      if (failure : bool) then
        let! e := failure_error data in
        Throw (StructuredError e)
      else Throw (StructuredError no_RPC_response)
  else Throw (StructuredError no_RPC_response).

(** [validateResponse(data).result] *)
Definition validated_result (data : JsonValue) : Outcome JsonValue :=
  let! success := validateResponse data in
  member success "result".

(** *** The shapes of the specification *)

(** A response basis: [jsonrpc] is ["2.0"] and [id] is a number, a string or
    [null]. *)
Definition is_response_id (v : JsonValue) : Prop :=
  match v with
  | JNumber _ | JString _ | JNull => True
  | _ => False
  end.

Definition response_basis (v : JsonValue) (id : JsonValue) : Prop :=
  exists props,
    v = JObject props /\
    props !! "jsonrpc" = Some (JString "2.0") /\
    optional_member v "id" = id /\
    is_response_id id.

(** The value carries a [result] key. *)
Definition carries_result (v : JsonValue) : Prop :=
  exists props, v = JObject props /\ is_Some (props !! "result").

(** [error.code] is a number and [error.message] is a string. *)
Definition failure_shape (v : JsonValue) (code : Z) (message : string) : Prop :=
  optional_member (optional_member v "error") "code" = JNumber code /\
  optional_member (optional_member v "error") "message" = JString message.

(** ** The platform

    What the code takes from the JavaScript platform and does not decide
    itself: how a number prints when it is used as a property key, whether
    an assignment [o[key] = v] to a plain object gives [o] an own property
    of that key (it does not for a key that [Object.prototype] has a setter
    for, as [__proto__] where the platform keeps that accessor), which
    header names and values the [Headers] class accepts, and how it
    normalizes a value before it stores it.  These are parameters: nothing
    is assumed of them. *)
Class Platform : Type := {
  Number_toString : Z -> string;
  assigns_own_property : string -> bool;
  header_name_valid : string -> bool;
  header_value_normalize : string -> string;
  header_value_valid : string -> bool
}.

(** ** The platform's [Headers] class

    A [Headers] object is a header list: pairs of a name and a value, in the
    order they were appended.  Names are compared byte-case-insensitively and
    are stored lower-cased.  A value is normalized when it is stored, and a
    name or a normalized value that the platform refuses makes [append],
    [set] and the constructor throw a [TypeError].  Several values of one
    name are combined with [", "] when read.  The code reads a header only
    by the name ["content-length"]. *)

Definition lower_ascii (c : ascii) : ascii :=
  let n := N_of_ascii c in
  if ((65 <=? n) && (n <=? 90))%N then ascii_of_N (n + 32) else c.

Fixpoint byteLowerCase (s : string) : string :=
  match s with
  | EmptyString => EmptyString
  | String c rest => String (lower_ascii c) (byteLowerCase rest)
  end.

Abbreviation Headers := (list (string * string)).

Definition Headers_values (h : Headers) (name : string) : list string :=
  map snd (filter (fun p => fst p = byteLowerCase name) h).


Fixpoint join_values (vs : list string) : string :=
  match vs with
  | [] => ""
  | [v] => v
  | v :: rest => v +:+ ", " +:+ join_values rest
  end.

(** [h.get(name)]: [null] ([None]) when the name is absent. *)
Definition Headers_get (h : Headers) (name : string) : option string :=
  match Headers_values h name with
  | [] => None
  | vs => Some (join_values vs)
  end.


Fixpoint insert_name (n : string) (sorted : list string) : list string :=
  match sorted with
  | [] => [n]
  | m :: rest =>
      if String.leb n m then n :: m :: rest else m :: insert_name n rest
  end.

Definition sort_names (names : list string) : list string :=
  foldr insert_name [] names.

(** [h.entries()]: the names in sorted order, each with its combined
    value; the values of ["set-cookie"] are not combined and come one by
    one. *)
Definition Headers_entries (h : Headers) : list (string * string) :=
  flat_map
    (fun n =>
       if String.eqb n "set-cookie"
       then map (fun v => (n, v)) (Headers_values h n)
       else [(n, default "" (Headers_get h n))])
    (sort_names (remove_dups (map fst h))).

Definition invalid_header : JsError :=
  NativeError "TypeError" "Invalid header name or value".

Section HeadersClass.

Context `{Platform}.

(** The value as it is stored, when the platform accepts the pair. *)
Definition header_accepted (name value : string) : bool :=
  header_name_valid name && header_value_valid (header_value_normalize value).

(** [h.append(name, value)] *)
Definition Headers_append (h : Headers) (name value : string) : Outcome Headers :=
  if header_accepted name value
  then Return (h ++ [(byteLowerCase name, header_value_normalize value)])
  else Throw invalid_header.


(** [new Headers(init)] appends the pairs of [init] in turn to an empty
    list, and throws at the first one the platform refuses. *)
Fixpoint Headers_fill (h : Headers) (init : list (string * string))
  : Outcome Headers :=
  match init with
  | [] => Return h
  | p :: rest =>
      let! h' := Headers_append h (fst p) (snd p) in
      Headers_fill h' rest
  end.

Definition Headers_new (init : list (string * string)) : Outcome Headers :=
  Headers_fill [] init.

End HeadersClass.

(** The names of a [Headers] object are stored lower-cased. *)
Definition Headers_wf (h : Headers) : Prop :=
  Forall (fun p => byteLowerCase (fst p) = fst p) h.

(** The [Headers] objects of the program, by address.  An object that the
    client shares with its caller is one entry, which both see. *)
Abbreviation Heap := (list Headers).

Definition Headers_at (heap : Heap) (ref : nat) : Headers :=
  default [] (heap !! ref).

(** ** The HTTP client (src/client/http.ts) *)

Inductive Resource : Type :=
| ResourceString (url : string)
| ResourceURL (href : string)
| ResourceRequest (url : string).

(** The request as [fetch] reads it when it is called: the fields of
    [RequestInit] the client sets, with the header list that the [Headers]
    object holds at that moment. *)
Record RequestInit : Type := mkRequestInit {
  init_method : option string;
  init_headers : Headers;
  init_body : option string
}.


Record Response : Type := mkResponse {
  res_status : Z;
  res_statusText : string;
  res_headers : Headers;
  res_json : Outcome JsonValue
}.

(** [res.ok]: the status is in the range 200-299. *)
Definition res_ok (res : Response) : bool :=
  ((200 <=? res_status res) && (res_status res <=? 299))%Z.

(** An HTTP status in a template string. *)
Definition number_to_string (n : Z) : string :=
  NilZero.string_of_int (Z.to_int n).

(** A truthy value of an optional boolean, and of an optional string. *)
Definition truthy_flag (b : option bool) : bool := default false b.

Definition truthy_string (s : option string) : bool :=
  match s with
  | Some (String _ _) => true
  | _ => false
  end.

Definition strict_eq_undefined (v : JsonValue) : bool :=
  match v with
  | JUndefined => true
  | _ => false
  end.

(** [acc[key] = ...]: the property key a value is converted to; a number
    prints as the platform prints it. *)
Fixpoint property_key `{Platform} (v : JsonValue) : string :=
  match v with
  | JUndefined => "undefined"
  | JNull => "null"
  | JBool true => "true"
  | JBool false => "false"
  | JNumber n => Number_toString n
  | JString s => s
  | JArray items =>
      String.concat ","
        (map (fun item =>
                match item with
                | JUndefined | JNull => ""
                | _ => property_key item
                end) items)
  | JObject _ => "[object Object]"
  end.

(** [acc[key] = value] on the plain object that [reduce] starts from. *)
Definition set_property `{Platform} (acc : gmap string JsonValue)
    (key : string) (value : JsonValue) : gmap string JsonValue :=
  if assigns_own_property key then <[key := value]> acc else acc.

(** The key under which [processBatchObject] stores a response. *)
Definition response_key `{Platform} (rpcResponse : JsonValue) : string :=
  property_key (optional_member rpcResponse "id").

Definition invalid_batch_response : BadServerDataError :=
  mkBadServerDataError JNull "The server returned an invalid batch response."
    (-32004) JUndefined.

Module Client.

(** [this.fetchInit]: its [headers] member is a reference to a [Headers]
    object. *)
Record Init : Type := mkInit {
  stored_method : option string;
  stored_headers : nat;
  stored_body : option string
}.

Record t : Type := mk {
  resource : Resource;
  fetchInit : Init
}.

(** The requests handed to [fetch] so far, oldest first. *)
Abbreviation Network := (list (Resource * RequestInit)).

Section Transport.

Context `{Platform}.

(** What the network answers to a request: a response, or the rejection of
    the [fetch] promise. *)
Variable server : Resource -> RequestInit -> Outcome Response.

(** [client/creation.ts] is not among the sources; its two functions build
    the request objects and are not looked into. *)
Variable createRequest : string -> JsonValue -> option bool -> JsonValue.
Variable createRequestBatch : JsonValue -> option bool -> JsonValue.
Variable JSON_stringify : JsonValue -> string.

Definition fetch (input : Resource) (init : RequestInit) (net : Network)
  : Network * Outcome Response :=
  (net ++ [(input, init)], server input init).

(** [resource instanceof URL ? resource.href : resource] *)
Definition fetch_input (resource : Resource) : Resource :=
  match resource with
  | ResourceURL href => ResourceString href
  | _ => resource
  end.

(** The callbacks of [send]'s [.then] and [.catch]. *)
Definition send_fulfilled (res : Response) : Outcome JsonValue :=
  if negb (res_ok res) then
    Throw (StructuredError
      (mkBadServerDataError JNull
         (number_to_string (res_status res) +:+ " '" +:+
          res_statusText res +:+ "' received instead of 200-299 range.")
         (-32002) JUndefined))
  else if (res_status res =? 204)%Z ||
          bool_decide (Headers_get (res_headers res) "content-length" = Some "0")
  then Return JUndefined
  else res_json res.

Definition send_rejected (err : JsError) : Outcome JsonValue :=
  Throw (StructuredError
    (mkBadServerDataError JNull (error_message err) (-32001) JUndefined)).

Definition send (resource : Resource) (fetchInit : RequestInit) (net : Network)
  : Network * Outcome JsonValue :=
  let (net', fetched) := fetch (fetch_input resource) fetchInit net in
  (net', catch_ (then_ fetched send_fulfilled) send_rejected).

(** [rpcResponseBatch.map(...)]: the first callback that throws ends the
    loop. *)
Fixpoint processBatchArray (rpcResponseBatch : list JsonValue)
  : Outcome (list JsonValue) :=
  match rpcResponseBatch with
  | [] => Return []
  | rpcResponse :: rest =>
      let! result := validated_result rpcResponse in
      let! results := processBatchArray rest in
      Return (result :: results)
  end.

(** The callback of [reduce]: the key [rpcResponse.id] is read before the
    response is validated. *)
Definition processBatchObject_step (acc : gmap string JsonValue)
    (rpcResponse : JsonValue) : Outcome (gmap string JsonValue) :=
  let! id := member rpcResponse "id" in
  let! result := validated_result rpcResponse in
  Return (set_property acc (property_key id) result).

Fixpoint processBatchObject_from (acc : gmap string JsonValue)
    (rpcResponseBatch : list JsonValue) : Outcome (gmap string JsonValue) :=
  match rpcResponseBatch with
  | [] => Return acc
  | rpcResponse :: rest =>
      let! acc' := processBatchObject_step acc rpcResponse in
      processBatchObject_from acc' rest
  end.

Definition processBatchObject (rpcResponseBatch : list JsonValue)
  : Outcome (gmap string JsonValue) :=
  processBatchObject_from ∅ rpcResponseBatch.


(** The request [batch] hands to [send], and the callback of its [.then]. *)
Definition batch_init (this : t) (batchObj : JsonValue)
    (isNotification : option bool) (heap : Heap) : RequestInit :=
  mkRequestInit (stored_method (fetchInit this))
    (Headers_at heap (stored_headers (fetchInit this)))
    (Some (JSON_stringify (createRequestBatch batchObj isNotification))).

Definition batch_fulfilled (batchObj : JsonValue) (isNotification : option bool)
    (rpcResponseBatch : JsonValue) : Outcome JsonValue :=
  if strict_eq_undefined rpcResponseBatch && truthy_flag isNotification
  then Return rpcResponseBatch
  else if Array_isArray rpcResponseBatch &&
          (0 <? length (array_items rpcResponseBatch))%nat
  then
    if Array_isArray batchObj
    then let! results := processBatchArray (array_items rpcResponseBatch) in
         Return (JArray results)
    else let! results := processBatchObject (array_items rpcResponseBatch) in
         Return (JObject results)
  else Throw (StructuredError invalid_batch_response).

(** The methods take [this], the [Headers] objects and the network, and
    give back what they leave of them with the settlement of the promise
    they return.  [batch] makes and changes no [Headers] object. *)
Definition batch (this : t) (batchObj : JsonValue)
    (isNotification : option bool) (heap : Heap) (net : Network)
  : t * Network * Outcome JsonValue :=
  let (net', sent) :=
    send (resource this) (batch_init this batchObj isNotification heap) net in
  (this, net', then_ sent (batch_fulfilled batchObj isNotification)).

(** The request [call] hands to [send]: with a credential, a new [Headers]
    object made of the entries of the persistent one and the
    [Authorization] pair; without, the persistent object itself.  Making
    the new object throws when the platform refuses a pair. *)
Definition call_init (this : t) (method : string) (params : JsonValue)
    (isNotification : option bool) (jwt : option string) (heap : Heap)
  : Outcome (RequestInit * Heap) :=
  let rpcRequestObj := createRequest method params isNotification in
  let persistent := Headers_at heap (stored_headers (fetchInit this)) in
  let! made :=
    if truthy_string jwt
    then
      let! h :=
        Headers_new
          (Headers_entries persistent ++
           [("Authorization", "Bearer " +:+ default "" jwt)]) in
      Return (h, heap ++ [h])
    else Return (persistent, heap) in
  Return
    (mkRequestInit (stored_method (fetchInit this)) (fst made)
       (Some (JSON_stringify rpcRequestObj)),
     snd made).

Definition call_fulfilled (isNotification : option bool)
    (rpcResponse : JsonValue) : Outcome JsonValue :=
  if strict_eq_undefined rpcResponse && truthy_flag isNotification
  then Return JUndefined
  else validated_result rpcResponse.

(** An exception thrown while the request is made leaves [call] before
    [send] is reached. *)
Definition call (this : t) (method : string) (params : JsonValue)
    (isNotification : option bool) (jwt : option string)
    (heap : Heap) (net : Network)
  : t * Heap * Network * Outcome JsonValue :=
  match call_init this method params isNotification jwt heap with
  | Return made =>
      let (net', sent) := send (resource this) (fst made) net in
      (this, snd made, net', then_ sent (call_fulfilled isNotification))
  | Throw e => (this, heap, net, Throw e)
  end.

End Transport.

End Client.

(** ** The WebSocket handler (src/server/ws.ts) *)

(** [server/creation.ts], [server/validation.ts] and the types they use are
    not among the sources.  The handler only passes values between their
    functions, which are taken as parameters: the Validator
    ([validateRequest] on a text frame, which gives one validation object or
    a batch of them, and [validateRpcRequestObject] on a decoded value) and
    the Builder ([createResponseObject], whose promise is fulfilled with a
    response object or with nothing).  A response object is truthy. *)
Class Collaborators : Type := {
  Methods : Type;
  Options : Type;
  ValidationObject : Type;
  RpcResponse : Type;
  disableInternalMethods : Options -> option bool;
  validateRequest : string -> Methods -> ValidationObject + list ValidationObject;
  validateRpcRequestObject : JsonValue -> Methods -> ValidationObject;
  createResponseObject : ValidationObject -> Methods -> Options -> option RpcResponse;
  stringify_response : RpcResponse -> string;
  stringify_batch : list RpcResponse -> string
}.

(** Modelled from the spec: [cleanBatch] of [server/creation.ts], the Batch
    Coordinator of section 4.3: "filter out empty outcomes and, if the
    remainder is non-empty, return it as an ordered sequence preserving
    original arrival order; otherwise return nothing". *)
Definition cleanBatch {R : Type} (batch : list (option R)) : option (list R) :=
  match omap id batch with
  | [] => None
  | responses => Some responses
  end.

(** The events the socket's iterator yields. *)
Inductive WebSocketEvent : Type :=
| TextEvent (text : string)
| BinaryEvent
| PingEvent (body : string)
| PongEvent (body : string)
| CloseEvent (code : Z) (reason : string).

(** The socket as the handler sees it: whether it is closed, and how its
    next [send] and [close] settle. *)
Record WebSocket : Type := mkWebSocket {
  isClosed : bool;
  send_settles : Outcome unit;
  close_settles : Outcome unit
}.

Record Emission : Type := mkEmission {
  emission_method : string;
  emission_params : JsonValue
}.

(** [addEventListener("emit", l)] and [removeEventListener("emit", l)] on
    the list of listeners of the global event target, each listener named by
    the number of its channel.  A listener is not added twice. *)
Definition addEventListener (l : nat) (listeners : list nat) : list nat :=
  if bool_decide (l ∈ listeners) then listeners else listeners ++ [l].

Definition removeEventListener (l : nat) (listeners : list nat) : list nat :=
  filter (fun l' => l' <> l) listeners.

(** A callback of [emitListener] that has a response to write. *)
Record Push : Type := mkPush {
  push_channel : nat;
  push_emission : nat;
  push_frame : string
}.

Section Server.

Context `{Collaborators}.

(** One run of [handleWs]: its [Input], what it has written and done to its
    socket, and how its promise settled ([None] while the loop runs). *)
Record Channel : Type := mkChannel {
  socket : WebSocket;
  methods : Methods;
  options : Options;
  methodsAndIdsStore : gmap string (gset string);
  written : list string;
  close_calls : list Z;
  settled : option (Outcome unit)
}.

(** The process: the channels, the listeners registered for ["emit"] in
    registration order, the number of events dispatched, the listener
    callbacks that are waiting to write, and the writes they attempted. *)
Record World : Type := mkWorld {
  channels : list Channel;
  listeners : list nat;
  emissions : nat;
  pending : list Push;
  attempts : list Push
}.

Definition initial_world : World := mkWorld [] [] 0 [] [].

(** [{ method, params, id, jsonrpc: "2.0" }] *)
Definition request_object (method : string) (params : JsonValue) (id : string)
  : JsonValue :=
  JObject
    (<["method" := JString method]>
       (<["params" := params]>
          (<["id" := JString id]>
             (<["jsonrpc" := JString "2.0"]> ∅)))).

(** The response a callback of [emitListener] awaits for [id], serialized
    when there is one. *)
Definition emit_response (ch : Channel) (event : Emission) (id : string)
  : option string :=
  stringify_response <$>
    createResponseObject
      (validateRpcRequestObject
         (request_object (emission_method event) (emission_params event) id)
         (methods ch))
      (methods ch) (options ch).

(** [emitListener(event)]: nothing ([None]) when the store does not have the
    method, else one callback for each id, here the frame it will write. *)
Definition emitListener (ch : Channel) (event : Emission)
  : option (list (option string)) :=
  match methodsAndIdsStore ch !! emission_method event with
  | Some ids => Some (map (emit_response ch event) (elements ids))
  | None => None
  end.

(** The callbacks of channel [c] that go on to [socket.send]. *)
Definition emit_pushes (c n : nat) (ch : Channel) (event : Emission) : list Push :=
  match emitListener ch event with
  | Some frames => mkPush c n <$> omap id frames
  | None => []
  end.

(** [dispatchEvent(new CustomEvent("emit", { detail }))]: every registered
    listener is called, in registration order. *)
Definition dispatchEvent (event : Emission) (w : World) : World :=
  mkWorld (channels w) (listeners w) (S (emissions w))
    (pending w ++
     flat_map (fun c =>
        match channels w !! c with
        | Some ch => emit_pushes c (emissions w) ch event
        | None => []
        end) (listeners w))
    (attempts w).

(** [socket.send(frame)] *)
Definition socket_send (frame : string) (ch : Channel) : Channel * Outcome unit :=
  match send_settles (socket ch) with
  | Return _ =>
      (mkChannel (socket ch) (methods ch) (options ch) (methodsAndIdsStore ch)
         (written ch ++ [frame]) (close_calls ch) (settled ch),
       Return tt)
  | Throw e => (ch, Throw e)
  end.

(** [socket.close(code)] *)
Definition socket_close (code : Z) (ch : Channel) : Channel * Outcome unit :=
  (mkChannel
     (mkWebSocket
        (match close_settles (socket ch) with
         | Return _ => true
         | Throw _ => isClosed (socket ch)
         end)
        (send_settles (socket ch)) (close_settles (socket ch)))
     (methods ch) (options ch) (methodsAndIdsStore ch)
     (written ch) (close_calls ch ++ [code]) (settled ch),
   close_settles (socket ch)).

Definition set_channel (c : nat) (ch : Channel) (w : World) : World :=
  mkWorld (<[c := ch]> (channels w)) (listeners w) (emissions w)
    (pending w) (attempts w).

Definition set_listeners (ls : list nat) (w : World) : World :=
  mkWorld (channels w) ls (emissions w) (pending w) (attempts w).

Definition settle (p : Outcome unit) (ch : Channel) : Channel :=
  mkChannel (socket ch) (methods ch) (options ch) (methodsAndIdsStore ch)
    (written ch) (close_calls ch) (Some p).

(** The tail of a callback of [emitListener]:
    [try { return await socket.send(frame) } catch { removeEventListener }].
    The result is the settlement of the callback's promise. *)
Definition emit_write (p : Push) (ch : Channel) (w : World) : World * Outcome unit :=
  let (ch', sent) := socket_send (push_frame p) ch in
  match sent with
  | Return _ => (set_channel (push_channel p) ch' w, Return tt)
  | Throw _ =>
      (set_listeners (removeEventListener (push_channel p) (listeners w)) w,
       Return tt)
  end.

(** [handleWs] runs interleaved with the handlers of the other channels and
    with the dispatch of events, and is embedded in three parts: its first
    statements, the body of its loop for one event of the socket, and its
    [catch] block.  [step] below runs one part at a time.

    The first statements of [handleWs]: the listener is made and, unless
    the internal methods are disabled, registered.  The new channel takes
    the next number. *)
Definition handleWs_connect (sock : WebSocket) (ms : Methods) (os : Options)
    (store : gmap string (gset string)) (w : World) : World :=
  let c := length (channels w) in
  mkWorld
    (channels w ++ [mkChannel sock ms os store [] [] None])
    (if negb (truthy_flag (disableInternalMethods os))
     then addEventListener c (listeners w)
     else listeners w)
    (emissions w) (pending w) (attempts w).

(** The [catch] block of [handleWs]; the handler's promise is fulfilled
    after it. *)
Definition handleWs_catch (c : nat) (ch : Channel) (w : World) : World :=
  let w1 :=
    if negb (truthy_flag (disableInternalMethods (options ch)))
    then set_listeners (removeEventListener c (listeners w)) w
    else w in
  if negb (isClosed (socket ch)) then
    let (ch', closing) := socket_close 1000 ch in
    let closed := catch_ closing (fun err => Return tt) in
    set_channel c (settle closed ch') w1
  else set_channel c (settle (Return tt) ch) w1.

(** What a text frame is answered with: a response, a batch of responses,
    or nothing. *)
Definition text_response (ch : Channel) (ev : string) : option string :=
  match validateRequest ev (methods ch) with
  | inr validationObjectBatch =>
      stringify_batch <$>
        cleanBatch
          (map (fun validationObject =>
                  createResponseObject validationObject (methods ch) (options ch))
               validationObjectBatch)
  | inl validationObject =>
      stringify_response <$>
        createResponseObject validationObject (methods ch) (options ch)
  end.

(** The body of the loop for one event of the socket.  A [send] that
    throws is caught by the [catch] block around the loop. *)
Definition handleWs_event (c : nat) (ev : WebSocketEvent) (ch : Channel)
    (w : World) : World :=
  match ev with
  | TextEvent text =>
      match text_response ch text with
      | Some frame =>
          let (ch', sent) := socket_send frame ch in
          match sent with
          | Return _ => set_channel c ch' w
          | Throw _ => handleWs_catch c ch' w
          end
      | None => w
      end
  | PingEvent body => w
  | CloseEvent code reason =>
      if negb (truthy_flag (disableInternalMethods (options ch)))
      then set_listeners (removeEventListener c (listeners w)) w
      else w
  | BinaryEvent => w
  | PongEvent body => w
  end.

(** What happens in the process, one step at a time: a socket is accepted
    and [handleWs] is called; the loop of a channel gets an event of its
    socket, the iterator of the socket throws, or it ends; the peer or the
    internal methods change a socket or a store; an event is dispatched on
    ["emit"]; the [socket.send] of a waiting callback settles. *)
Inductive Label : Type :=
| Connect (sock : WebSocket) (ms : Methods) (os : Options)
    (store : gmap string (gset string))
| Receive (c : nat) (ev : WebSocketEvent)
| ReadFailure (c : nat)
| EndOfEvents (c : nat)
| SocketChange (c : nat) (sock : WebSocket)
| StoreChange (c : nat) (store : gmap string (gset string))
| Emit (event : Emission)
| Deliver (k : nat).

(** A channel whose handler loop is still running. *)
Definition running (c : nat) (w : World) : option Channel :=
  match channels w !! c with
  | Some ch => match settled ch with None => Some ch | Some _ => None end
  | None => None
  end.

Definition step (l : Label) (w : World) : option World :=
  match l with
  | Connect sock ms os store => Some (handleWs_connect sock ms os store w)
  | Receive c ev => (fun ch => handleWs_event c ev ch w) <$> running c w
  | ReadFailure c => (fun ch => handleWs_catch c ch w) <$> running c w
  | EndOfEvents c =>
      (fun ch => set_channel c (settle (Return tt) ch) w) <$> running c w
  | SocketChange c sock =>
      (fun ch =>
         set_channel c
           (mkChannel sock (methods ch) (options ch) (methodsAndIdsStore ch)
              (written ch) (close_calls ch) (settled ch)) w)
        <$> channels w !! c
  | StoreChange c store =>
      (fun ch =>
         set_channel c
           (mkChannel (socket ch) (methods ch) (options ch) store
              (written ch) (close_calls ch) (settled ch)) w)
        <$> channels w !! c
  | Emit event => Some (dispatchEvent event w)
  | Deliver k =>
      match pending w !! k with
      | Some p =>
          (fun ch =>
             let w1 :=
               mkWorld (channels w) (listeners w) (emissions w)
                 (delete k (pending w)) (attempts w ++ [p]) in
             fst (emit_write p ch w1))
            <$> channels w !! push_channel p
      | None => None
      end
  end.

Fixpoint run (ls : list Label) (w : World) : option World :=
  match ls with
  | [] => Some w
  | l :: rest =>
      match step l w with
      | Some w' => run rest w'
      | None => None
      end
  end.

(** The channel was opened with [options.disableInternalMethods] set. *)
Definition internal_methods_disabled (ch : Channel) : bool :=
  truthy_flag (disableInternalMethods (options ch)).

(** What holds of every world the process can reach: a listener is
    registered once, for a channel whose internal methods are enabled; a
    callback belongs to an event already dispatched and to such a channel. *)
Definition world_invariant (w : World) : Prop :=
  NoDup (listeners w) /\
  (forall c, c ∈ listeners w ->
     exists ch, channels w !! c = Some ch /\ internal_methods_disabled ch = false) /\
  (forall p, p ∈ pending w ++ attempts w ->
     (push_emission p < emissions w)%nat /\
     exists ch, channels w !! push_channel p = Some ch /\
                internal_methods_disabled ch = false).

(** Channel [c] has no listener, and every callback that writes or wrote to
    it belongs to one of the first [n] events. *)
Definition deregistered (c n : nat) (w : World) : Prop :=
  is_Some (channels w !! c) /\
  (c ∉ listeners w) /\
  (forall p, p ∈ pending w ++ attempts w ->
     push_channel p = c -> (push_emission p < n)%nat).

(** Whatever happens after [w], no event dispatched from [w] on makes a
    callback that writes to channel [c]. *)
Definition no_later_push (c : nat) (w : World) : Prop :=
  forall later w', run later w = Some w' -> deregistered c (emissions w) w'.

(** What one step may change. *)
Record step_frame (w w' : World) : Prop := mkStepFrame {
  frame_channels :
    forall c ch, channels w !! c = Some ch ->
      exists ch', channels w' !! c = Some ch' /\ options ch' = options ch;
  frame_listeners :
    forall c, c ∈ listeners w' ->
      c ∈ listeners w \/
      (channels w !! c = None /\
       exists ch', channels w' !! c = Some ch' /\
                   internal_methods_disabled ch' = false);
  frame_NoDup : NoDup (listeners w) -> NoDup (listeners w');
  frame_emissions : (emissions w <= emissions w')%nat;
  frame_pushes :
    forall p, p ∈ pending w' ++ attempts w' ->
      p ∈ pending w ++ attempts w \/
      (push_channel p ∈ listeners w /\ push_emission p = emissions w /\
       (emissions w < emissions w')%nat)
}.

End Server.


(** ** Sample values *)

Definition json_object (members : list (string * JsonValue)) : JsonValue :=
  JObject (list_to_map members).

(** [{ jsonrpc: "2.0", id: 7, result: "ok" }] *)
Definition success_response : JsonValue :=
  json_object
    [("jsonrpc", JString "2.0"); ("id", JNumber 7); ("result", JString "ok")].

(** [{ jsonrpc: "2.0", id: "a", error: { code: -32601, message: "Method not found" } }] *)
Definition failure_response : JsonValue :=
  json_object
    [("jsonrpc", JString "2.0"); ("id", JString "a");
     ("error",
      json_object
        [("code", JNumber (-32601)); ("message", JString "Method not found")])].

(** [{ jsonrpc: "2.0", id: 1, result: 3, error: { code: -32000, message: "failed" } }] *)
Definition mixed_response : JsonValue :=
  json_object
    [("jsonrpc", JString "2.0"); ("id", JNumber 1); ("result", JNumber 3);
     ("error",
      json_object [("code", JNumber (-32000)); ("message", JString "failed")])].

(** A server that answers every request with status 500. *)
Definition server_500 (input : Resource) (init : RequestInit) : Outcome Response :=
  Return (mkResponse 500 "Internal Server Error" [] (Return JNull)).

(** A server that answers every request with status 200 and the given
    decoded body. *)
Definition server_200 (body : JsonValue) (input : Resource) (init : RequestInit)
  : Outcome Response :=
  Return (mkResponse 200 "OK" [("content-type", "application/json")] (Return body)).

Definition sample_createRequest (method : string) (params : JsonValue)
    (isNotification : option bool) : JsonValue :=
  json_object
    [("jsonrpc", JString "2.0"); ("method", JString method); ("params", params)].

Definition sample_createRequestBatch (batchObj : JsonValue)
    (isNotification : option bool) : JsonValue := batchObj.

Definition sample_stringify (v : JsonValue) : string := "{}".

(** A sample platform for the examples: the [Headers] class as the Fetch
    standard has it (a name is a non-empty token; a value loses its leading
    and trailing tabs, line feeds, carriage returns and spaces, and may not
    hold a NUL, a line feed or a carriage return), numbers printed in
    decimal, which is how an integer below 10^21 prints (the examples use no
    larger one), and [__proto__] as the one key that an assignment does not
    store. *)
Definition is_http_whitespace (c : ascii) : bool :=
  let n := N_of_ascii c in
  ((n =? 9) || (n =? 10) || (n =? 13) || (n =? 32))%N.

Fixpoint strip_leading (s : string) : string :=
  match s with
  | EmptyString => EmptyString
  | String c rest => if is_http_whitespace c then strip_leading rest else s
  end.

Fixpoint strip_trailing (s : string) : string :=
  match s with
  | EmptyString => EmptyString
  | String c rest =>
      match strip_trailing rest with
      | EmptyString => if is_http_whitespace c then EmptyString
                       else String c EmptyString
      | kept => String c kept
      end
  end.

Definition http_trim (s : string) : string := strip_trailing (strip_leading s).

Definition is_token_char (c : ascii) : bool :=
  let n := N_of_ascii c in
  (((48 <=? n) && (n <=? 57)) || ((65 <=? n) && (n <=? 90)) ||
   ((97 <=? n) && (n <=? 122)) ||
   bool_decide (n ∈ [33; 35; 36; 37; 38; 39; 42; 43; 45; 46; 94; 95; 96; 124; 126]))%N.

Fixpoint all_chars (f : ascii -> bool) (s : string) : bool :=
  match s with
  | EmptyString => true
  | String c rest => f c && all_chars f rest
  end.

Definition sample_platform : Platform := {|
  Number_toString := number_to_string;
  assigns_own_property := fun key => negb (String.eqb key "__proto__");
  header_name_valid :=
    fun name => negb (String.eqb name "") && all_chars is_token_char name;
  header_value_normalize := http_trim;
  header_value_valid :=
    all_chars (fun c =>
      let n := N_of_ascii c in negb ((n =? 0) || (n =? 10) || (n =? 13))%N)
|}.

(** Two [Headers] objects, as the constructor leaves them for no options
    and for an [Authorization] header among the options, and the clients
    that hold them. *)
Definition sample_heap : Heap :=
  [[("content-type", "application/json")];
   [("authorization", "Basic dXNlcjpwdw==");
    ("content-type", "application/json")]].

Definition sample_client : Client.t :=
  Client.mk (ResourceString "http://localhost:8000")
    (Client.mkInit (Some "POST") 0 None).

(** A client made with an [Authorization] header in its options. *)
Definition basic_auth_client : Client.t :=
  Client.mk (ResourceString "http://localhost:8000")
    (Client.mkInit (Some "POST") 1 None).

(** Sample collaborators: the registry is the list of method names; a
    decoded request is its own validation object; the Builder answers a
    request that has an [id] with the request itself and gives nothing for
    one without; a response is written as its [id]. *)
Definition sample_validateRequest (text : string) (ms : list string)
  : JsonValue + list JsonValue :=
  if String.eqb text "batch"
  then inr [json_object [("id", JString "first")]; json_object [];
            json_object [("id", JString "second")]]
  else if String.eqb text "notifications"
  then inr [json_object []; json_object []]
  else inl (json_object [("id", JString text)]).

Definition sample_createResponseObject (validationObject : JsonValue)
    (ms : list string) (os : option bool) : option JsonValue :=
  match optional_member validationObject "id" with
  | JUndefined => None
  | _ => Some validationObject
  end.

Definition sample_stringify_response (r : JsonValue) : string :=
  match optional_member r "id" with
  | JString id => id
  | _ => "response"
  end.

Definition sample_collaborators : Collaborators := {|
  Methods := list string;
  Options := option bool;
  ValidationObject := JsonValue;
  RpcResponse := JsonValue;
  disableInternalMethods := fun os => os;
  validateRequest := sample_validateRequest;
  validateRpcRequestObject := fun decoded ms => decoded;
  createResponseObject := sample_createResponseObject;
  stringify_response := sample_stringify_response;
  stringify_batch := fun rs => String.concat "," (map sample_stringify_response rs)
|}.

Definition open_socket : WebSocket := mkWebSocket false (Return tt) (Return tt).

(** A socket whose peer is gone: [send] and [close] reject. *)
Definition dead_socket : WebSocket :=
  mkWebSocket false
    (Throw (NativeError "ConnectionReset" "Socket has already been closed"))
    (Throw (NativeError "ConnectionReset" "Socket has already been closed")).

Definition price_store : gmap string (gset string) :=
  {[ "priceUpdate" := {[ "sub-1" ]} ]}.

Definition price_event : Emission :=
  mkEmission "priceUpdate" (json_object [("price", JNumber 42)]).

(** The steps of a process that runs with the sample collaborators. *)
Definition sample_connect (sock : WebSocket) (os : option bool)
    (store : gmap string (gset string)) : @Label sample_collaborators :=
  @Connect sample_collaborators sock [] os store.

Definition sample_emit (event : Emission) : @Label sample_collaborators :=
  @Emit sample_collaborators event.

Definition sample_receive (c : nat) (ev : WebSocketEvent)
  : @Label sample_collaborators :=
  @Receive sample_collaborators c ev.

Definition sample_end (c : nat) : @Label sample_collaborators :=
  @EndOfEvents sample_collaborators c.

Definition sample_channel (sock : WebSocket) (os : option bool)
    (store : gmap string (gset string)) : @Channel sample_collaborators :=
  @mkChannel sample_collaborators sock [] os store [] [] None.

(** Two channels are opened, the first subscribed to ["priceUpdate"] under
    the id ["sub-1"], the second to nothing. *)
Definition two_channels : list (@Label sample_collaborators) :=
  [sample_connect open_socket None price_store;
   sample_connect open_socket None ∅].

Definition world_two_channels : @World sample_collaborators :=
  default initial_world (run two_channels initial_world).

(** A subscribed channel whose peer is gone, and an event dispatched to
    it. *)
Definition dead_channel_push : list (@Label sample_collaborators) :=
  [sample_connect dead_socket None price_store; sample_emit price_event].

Definition world_dead_channel : @World sample_collaborators :=
  default initial_world (run dead_channel_push initial_world).

(** One subscribed channel. *)
Definition one_channel : list (@Label sample_collaborators) :=
  [sample_connect open_socket None price_store].

Definition world_one_channel : @World sample_collaborators :=
  default initial_world (run one_channel initial_world).

(** What follows the opening of a channel with the internal methods
    disabled: an event, and the end of the channel. *)
Definition after_disabled_connect : list (@Label sample_collaborators) :=
  [sample_emit price_event; sample_receive 0 (CloseEvent 1000 "");
   sample_end 0; sample_emit price_event].

(** ** Further shapes and sample values *)

(** A notification: [jsonrpc] is ["2.0"], [method] is a string and there is
    no [id] (the key is absent or holds [undefined]). *)
Definition notification_shape (v : JsonValue) : Prop :=
  exists props method,
    v = JObject props /\
    props !! "jsonrpc" = Some (JString "2.0") /\
    props !! "method" = Some (JString method) /\
    (props !! "id" = None \/ props !! "id" = Some JUndefined).

(** [{ jsonrpc: "2.0", method: "log", params: [1] }] *)
Definition notification_request : JsonValue :=
  json_object
    [("jsonrpc", JString "2.0"); ("method", JString "log");
     ("params", JArray [JNumber 1])].

(** [{ jsonrpc: "2.0", id: 3, error: { code: -32602, message: "Invalid params", data: ["x"] } }] *)
Definition failure_with_data : JsonValue :=
  json_object
    [("jsonrpc", JString "2.0"); ("id", JNumber 3);
     ("error",
      json_object
        [("code", JNumber (-32602)); ("message", JString "Invalid params");
         ("data", JArray [JString "x"])])].

(** A server that answers every request with status 204 and no body; one
    that cannot be reached; one whose body does not decode. *)
Definition server_204 (input : Resource) (init : RequestInit) : Outcome Response :=
  Return
    (mkResponse 204 "No Content" []
       (Throw (NativeError "SyntaxError" "Unexpected end of JSON input"))).

Definition server_unreachable (input : Resource) (init : RequestInit)
  : Outcome Response :=
  Throw (NativeError "TypeError" "error sending request").

Definition server_malformed (input : Resource) (init : RequestInit)
  : Outcome Response :=
  Return
    (mkResponse 200 "OK" [("content-type", "text/html")]
       (Throw (NativeError "SyntaxError" "Unexpected token < in JSON"))).

(** A pair of a name and a value as a [Headers] object stores it. *)
Definition stored_pair `{Platform} (p : string * string) : string * string :=
  (byteLowerCase (fst p), header_value_normalize (snd p)).

(** A credential that holds a line feed. *)
Definition line_feed_token : string :=
  String "a" (String (ascii_of_nat 10) "b").



Section ChannelHistory.

Context `{Collaborators}.

(** What a step may do to a channel: its registry and options stay, what it
    has written grows at the end, and its handler ends at most once,
    fulfilled, calling [socket.close(1000)] then or not at all. *)
Definition channel_evolves (ch ch' : Channel) : Prop :=
  methods ch' = methods ch /\
  options ch' = options ch /\
  written ch `prefix_of` written ch' /\
  ((settled ch' = settled ch /\ close_calls ch' = close_calls ch) \/
   (settled ch = None /\ settled ch' = Some (Return tt) /\
    written ch' = written ch /\
    (close_calls ch' = close_calls ch \/
     (isClosed (socket ch) = false /\
      close_calls ch' = close_calls ch ++ [1000])))).

(** The handler of the channel is running and has not closed the socket,
    or it has ended fulfilled and has closed it at most once, with code
    1000. *)
Definition handler_state_ok (ch : Channel) : Prop :=
  (settled ch = None /\ close_calls ch = []) \/
  (settled ch = Some (Return tt) /\
   (close_calls ch = [] \/ close_calls ch = [1000])).

(** The steps taken by the handler of channel [c]. *)
Definition handler_step (c : nat) (l : Label) : Prop :=
  match l with
  | Receive c' _ | ReadFailure c' | EndOfEvents c' => c' = c
  | _ => False
  end.

End ChannelHistory.

(** A channel whose socket rejects the reply to a text frame. *)
Definition dead_channel : list (@Label sample_collaborators) :=
  [sample_connect dead_socket None price_store].

Definition world_dead_reply : @World sample_collaborators :=
  default initial_world (run dead_channel initial_world).

(** A channel whose socket fails to read. *)
Definition failed_read : list (@Label sample_collaborators) :=
  [sample_connect open_socket None price_store;
   @ReadFailure sample_collaborators 0].

Definition world_failed_read : @World sample_collaborators :=
  default initial_world (run failed_read initial_world).

(** * Properties *)

(** ** Response validation *)

Lemma strict_eq_string_true (v : JsonValue) (s : string) :
  strict_eq_string v s = true <-> v = JString s.
Proof.
  destruct v; simpl; try (split; [discriminate | congruence]).
  rewrite String.eqb_eq. split; congruence.
Qed.

(** Past the first conjunct of a validator the value is an object, and the
    plain property reads cannot throw. *)
Lemma member_object (props : gmap string JsonValue) (key : string) :
  member (JObject props) key = Return (optional_member (JObject props) key).
Proof. reflexivity. Qed.

Lemma validateRpcBasis_object (props : gmap string JsonValue) :
  validateRpcBasis (JObject props) =
  Return
    (strict_eq_string (optional_member (JObject props) "jsonrpc") "2.0" &&
     match optional_member (JObject props) "id" with
     | JNumber _ | JString _ | JNull => true
     | _ => false
     end).
Proof.
  unfold validateRpcBasis. rewrite !member_object.
  destruct (strict_eq_string _ _); [|reflexivity].
  destruct (optional_member (JObject props) "id"); reflexivity.
Qed.

Lemma validateRpcBasis_not_object (data : JsonValue) :
  (forall props, data <> JObject props) -> validateRpcBasis data = Return false.
Proof.
  intros Hno. destruct data; try reflexivity. now destruct (Hno props).
Qed.

Lemma validateRpcBasis_true (data : JsonValue) :
  validateRpcBasis data = Return true <-> exists id, response_basis data id.
Proof.
  split.
  - destruct data; try discriminate.
    rewrite validateRpcBasis_object. intros [= Hb].
    apply andb_prop in Hb as [Hj Hid].
    apply strict_eq_string_true in Hj.
    exists (optional_member (JObject props) "id"), props.
    repeat split.
    + simpl in Hj. destruct (props !! "jsonrpc"); simpl in Hj; congruence.
    + revert Hid. simpl.
      destruct (default JUndefined (props !! "id")); simpl; intros Hid;
        try discriminate; exact I.
  - intros (id & props & -> & Hj & Hid & Hok).
    rewrite validateRpcBasis_object, Hid. simpl. rewrite Hj. simpl.
    destruct id; try contradiction; reflexivity.
Qed.

Lemma validateRpcBasis_total (data : JsonValue) :
  validateRpcBasis data = Return true \/ validateRpcBasis data = Return false.
Proof.
  destruct data; try (right; reflexivity).
  rewrite validateRpcBasis_object.
  destruct (_ && _); [left | right]; reflexivity.
Qed.

Lemma carries_result_object (props : gmap string JsonValue) :
  carries_result (JObject props) <-> is_Some (props !! "result").
Proof.
  split.
  - intros (props' & [= <-] & Hr). exact Hr.
  - intros Hr. exists props. split; [reflexivity | exact Hr].
Qed.

Lemma validateRpcFailure_object (props : gmap string JsonValue) :
  validateRpcFailure (JObject props) =
  Return
    (match optional_member (optional_member (JObject props) "error") "code" with
     | JNumber _ => true
     | _ => false
     end &&
     match optional_member (optional_member (JObject props) "error") "message" with
     | JString _ => true
     | _ => false
     end).
Proof.
  unfold validateRpcFailure. rewrite member_object.
  destruct (optional_member (JObject props) "error") as [| | | | | |eprops];
    try reflexivity.
  simpl.
  destruct (default JUndefined (eprops !! "code")); try reflexivity.
  simpl. destruct (default JUndefined (eprops !! "message")); reflexivity.
Qed.

Lemma validateRpcFailure_true (props : gmap string JsonValue) :
  validateRpcFailure (JObject props) = Return true <->
  exists code message, failure_shape (JObject props) code message.
Proof.
  rewrite validateRpcFailure_object. unfold failure_shape.
  generalize (optional_member (optional_member (JObject props) "error") "code").
  generalize (optional_member (optional_member (JObject props) "error") "message").
  intros m c. split.
  - intros [= Hb]. apply andb_prop in Hb as [Hc Hm].
    destruct c; try discriminate. destruct m; try discriminate. eauto.
  - intros (code & message & -> & ->). reflexivity.
Qed.

Lemma failure_error_shape (props : gmap string JsonValue) (code : Z)
    (message : string) :
  failure_shape (JObject props) code message ->
  failure_error (JObject props) =
  Return
    (mkBadServerDataError (optional_member (JObject props) "id") message code
       (optional_member (optional_member (JObject props) "error") "data")).
Proof.
  unfold failure_shape, failure_error. rewrite !member_object.
  destruct (optional_member (JObject props) "error") as [| | | | | |eprops];
    try (simpl; intros [? ?]; discriminate).
  simpl. intros [-> ->]. reflexivity.
Qed.

(** [validateResponse] on an object, by cases. *)
Lemma validateResponse_object (props : gmap string JsonValue) :
  validateResponse (JObject props) =
  let! basis := validateRpcBasis (JObject props) in
  if (basis : bool) then
    if bool_decide (is_Some (props !! "result")) then Return (JObject props)
    else
      let! failure := validateRpcFailure (JObject props) in
      if (failure : bool) then
        let! e := failure_error (JObject props) in
        Throw (StructuredError e)
      else Throw (StructuredError no_RPC_response)
  else Throw (StructuredError no_RPC_response).
Proof. reflexivity. Qed.

Lemma validateResponse_not_object (data : JsonValue) :
  (forall props, data <> JObject props) ->
  validateResponse data = Throw (StructuredError no_RPC_response).
Proof.
  intros Hno. unfold validateResponse.
  rewrite validateRpcBasis_not_object by exact Hno. reflexivity.
Qed.

Lemma validateResponse_success (data id : JsonValue) :
  response_basis data id -> carries_result data ->
  validateResponse data = Return data.
Proof.
  intros Hb Hr.
  assert (validateRpcBasis data = Return true) as Hbasis
    by (apply validateRpcBasis_true; eauto).
  destruct Hr as (props & -> & Hr).
  rewrite validateResponse_object, Hbasis. simpl.
  rewrite bool_decide_eq_true_2 by exact Hr. reflexivity.
Qed.

Lemma validateResponse_failure (data id : JsonValue) (code : Z) (message : string) :
  response_basis data id -> ~ carries_result data ->
  failure_shape data code message ->
  validateResponse data =
  Throw (StructuredError
    (mkBadServerDataError id message code
       (optional_member (optional_member data "error") "data"))).
Proof.
  intros Hb Hr Hf.
  assert (validateRpcBasis data = Return true) as Hbasis
    by (apply validateRpcBasis_true; eauto).
  destruct Hb as (props & -> & _ & Hid & _).
  rewrite validateResponse_object, Hbasis. simpl then_.
  rewrite bool_decide_eq_false_2
    by (intros Hs; apply Hr, carries_result_object, Hs).
  assert (validateRpcFailure (JObject props) = Return true) as ->
    by (apply validateRpcFailure_true; eauto).
  simpl then_. rewrite (failure_error_shape _ _ _ Hf), Hid. reflexivity.
Qed.

Lemma validateResponse_other (data : JsonValue) :
  ~ (exists id, response_basis data id /\
       (carries_result data \/ exists code message, failure_shape data code message)) ->
  validateResponse data = Throw (StructuredError no_RPC_response).
Proof.
  intros Hother.
  destruct data; try (apply validateResponse_not_object; congruence).
  rewrite validateResponse_object.
  destruct (validateRpcBasis_total (JObject props)) as [Hb | Hb]; rewrite Hb;
    [|reflexivity].
  simpl then_. apply validateRpcBasis_true in Hb as [id Hb].
  case_bool_decide as Hr.
  - destruct Hother. exists id. split; [exact Hb|]. left.
    now apply carries_result_object.
  - destruct (validateRpcFailure (JObject props)) as [[|]|e] eqn:Hf.
    + destruct Hother. exists id. split; [exact Hb|]. right.
      now apply validateRpcFailure_true.
    + reflexivity.
    + rewrite validateRpcFailure_object in Hf. discriminate.
Qed.

(** The result a caller reads from a validated success response. *)
Lemma validated_result_success (data id result : JsonValue) :
  response_basis data id -> optional_member data "result" = result ->
  carries_result data ->
  validated_result data = Return result.
Proof.
  intros Hb Hres Hr. unfold validated_result.
  rewrite (validateResponse_success _ _ Hb Hr).
  destruct Hr as (props & -> & _). subst result. reflexivity.
Qed.

(** C10: a response basis that carries both a [result] key and a
    well-formed [error] object is classified as a success:
    [validateResponse] returns it and does not raise. *)
Theorem validateResponse_success_takes_precedence
    (v id : JsonValue) (code : Z) (message : string) :
  response_basis v id -> carries_result v -> failure_shape v code message ->
  validateResponse v = Return v.
Proof.
  intros Hb Hr _. exact (validateResponse_success v id Hb Hr).
Qed.

Lemma mixed_response_basis : response_basis mixed_response (JNumber 1).
Proof.
  eexists. split; [reflexivity|]. repeat split; vm_compute; reflexivity.
Qed.

Lemma mixed_response_result : carries_result mixed_response.
Proof.
  eexists. split; [reflexivity|]. exists (JNumber 3). vm_compute. reflexivity.
Qed.

Lemma mixed_response_failure : failure_shape mixed_response (-32000) "failed".
Proof. split; vm_compute; reflexivity. Qed.

Lemma validateResponse_success_takes_precedence_witness :
  validateResponse mixed_response = Return mixed_response.
Proof.
  apply (validateResponse_success_takes_precedence mixed_response (JNumber 1)
           (-32000) "failed").
  - exact mixed_response_basis.
  - exact mixed_response_result.
  - exact mixed_response_failure.
Defined.

(** C2, as written, fails on a response basis that has the failure shape
    and also carries a [result] key: [validateResponse] returns the value
    and raises nothing. *)
Lemma validateResponse_failure_shape_returned :
  response_basis mixed_response (JNumber 1) /\
  failure_shape mixed_response (-32000) "failed" /\
  validateResponse mixed_response = Return mixed_response /\
  ~ (exists e, validateResponse mixed_response = Throw e).
Proof.
  assert (validateResponse mixed_response = Return mixed_response) as Hv
    by (vm_compute; reflexivity).
  split; [|split; [|split]].
  - exact mixed_response_basis.
  - exact mixed_response_failure.
  - exact Hv.
  - intros [e He]. rewrite Hv in He. discriminate.
Qed.

(** C2 (amended): a response basis that carries a [result] key is returned
    as it is, and the caller reads its [result] unchanged; a response basis
    without a [result] key whose [error.code] is a number and whose
    [error.message] is a string raises a structured error with that code,
    message and id; every other value raises the structured error of code
    -32003 and id [null]. *)
Theorem validateResponse_classification (v : JsonValue) :
  (forall id, response_basis v id -> carries_result v ->
     validateResponse v = Return v /\
     validated_result v = Return (optional_member v "result")) /\
  (forall id code message,
     response_basis v id -> ~ carries_result v -> failure_shape v code message ->
     exists e,
       validateResponse v = Throw (StructuredError e) /\
       err_code e = code /\ err_message e = message /\ err_id e = id) /\
  (~ (exists id, response_basis v id /\
        (carries_result v \/ exists code message, failure_shape v code message)) ->
   exists e,
     validateResponse v = Throw (StructuredError e) /\
     err_code e = -32003 /\ err_id e = JNull).
Proof.
  split; [|split].
  - intros id Hb Hr. split.
    + exact (validateResponse_success v id Hb Hr).
    + exact (validated_result_success v id _ Hb eq_refl Hr).
  - intros id code message Hb Hr Hf. eexists. split.
    + exact (validateResponse_failure v id code message Hb Hr Hf).
    + repeat split.
  - intros Hother. exists no_RPC_response. split.
    + exact (validateResponse_other v Hother).
    + split; reflexivity.
Qed.

Lemma failure_response_basis : response_basis failure_response (JString "a").
Proof.
  eexists. split; [reflexivity|]. repeat split; vm_compute; reflexivity.
Qed.

Lemma failure_response_no_result : ~ carries_result failure_response.
Proof.
  intros (props & Heq & Hr). injection Heq as <-.
  vm_compute in Hr. destruct Hr as [x Hx]. discriminate.
Qed.

Lemma success_response_basis : response_basis success_response (JNumber 7).
Proof.
  eexists. split; [reflexivity|]. repeat split; vm_compute; reflexivity.
Qed.

Lemma success_response_result : carries_result success_response.
Proof.
  eexists. split; [reflexivity|]. exists (JString "ok"). vm_compute. reflexivity.
Qed.

Lemma validateResponse_classification_witness :
  (validateResponse success_response = Return success_response /\
   validated_result success_response = Return (JString "ok")) /\
  (exists e,
     validateResponse failure_response = Throw (StructuredError e) /\
     err_code e = -32601 /\ err_message e = "Method not found" /\
     err_id e = JString "a") /\
  (exists e,
     validateResponse (JArray []) = Throw (StructuredError e) /\
     err_code e = -32003 /\ err_id e = JNull).
Proof.
  split; [|split].
  - apply (proj1 (validateResponse_classification success_response)
             (JNumber 7)).
    + exact success_response_basis.
    + exact success_response_result.
  - apply (proj1 (proj2 (validateResponse_classification failure_response))
             (JString "a") (-32601) "Method not found").
    + exact failure_response_basis.
    + exact failure_response_no_result.
    + split; vm_compute; reflexivity.
  - apply (proj2 (proj2 (validateResponse_classification (JArray [])))).
    intros (id & (props & Heq & _) & _). discriminate.
Defined.

(** ** The HTTP client *)

Lemma filter_all {A : Type} (P : A -> Prop) `{forall x, Decision (P x)}
    (l : list A) :
  Forall P l -> filter P l = l.
Proof.
  induction 1 as [|x l Hx Hl IH]; [reflexivity|].
  rewrite filter_cons, decide_True by exact Hx. now rewrite IH.
Qed.

Lemma filter_none {A : Type} (P : A -> Prop) `{forall x, Decision (P x)}
    (l : list A) :
  Forall (fun x => ~ P x) l -> filter P l = [].
Proof.
  induction 1 as [|x l Hx Hl IH]; [reflexivity|].
  now rewrite filter_cons, decide_False by exact Hx.
Qed.

Section ClientProperties.

Context `{Platform}.
Variable server : Resource -> RequestInit -> Outcome Response.
Variable createRequest : string -> JsonValue -> option bool -> JsonValue.
Variable createRequestBatch : JsonValue -> option bool -> JsonValue.
Variable JSON_stringify : JsonValue -> string.

Lemma send_network (resource : Resource) (init : RequestInit) (net : Client.Network) :
  (Client.send server resource init net).1 =
  net ++ [(Client.fetch_input resource, init)].
Proof. reflexivity. Qed.

Lemma send_outcome (resource : Resource) (init : RequestInit) (net : Client.Network) :
  (Client.send server resource init net).2 =
  catch_ (then_ (server (Client.fetch_input resource) init) Client.send_fulfilled)
    Client.send_rejected.
Proof. reflexivity. Qed.

(** [call] makes its request first; when the platform refuses a header of
    it, [call] throws and [send] is not reached. *)
Lemma call_outcome (this : Client.t) (method : string) (params : JsonValue)
    (isNotification : option bool) (jwt : option string) (heap : Heap)
    (net : Client.Network) :
  (Client.call server createRequest JSON_stringify this method params
     isNotification jwt heap net).2 =
  match Client.call_init createRequest JSON_stringify this method params
          isNotification jwt heap with
  | Return made =>
      then_ (Client.send server (Client.resource this) made.1 net).2
        (Client.call_fulfilled isNotification)
  | Throw e => Throw e
  end.
Proof.
  unfold Client.call.
  destruct (Client.call_init _ _ _ _ _ _ _ _) as [made | e]; reflexivity.
Qed.


Lemma batch_outcome (this : Client.t) (batchObj : JsonValue)
    (isNotification : option bool) (heap : Heap) (net : Client.Network) :
  (Client.batch server createRequestBatch JSON_stringify this batchObj
     isNotification heap net).2 =
  then_
    (Client.send server (Client.resource this)
       (Client.batch_init createRequestBatch JSON_stringify this batchObj
          isNotification heap) net).2
    (Client.batch_fulfilled batchObj isNotification).
Proof. reflexivity. Qed.

(** Whatever [send] rejects with has passed through its [.catch]: the code
    is -32001 and the id is [null]. *)
Lemma send_rejects_32001 (resource : Resource) (init : RequestInit)
    (net : Client.Network) (e : JsError) :
  (Client.send server resource init net).2 = Throw e ->
  exists message,
    e = StructuredError (mkBadServerDataError JNull message (-32001) JUndefined).
Proof.
  rewrite send_outcome.
  destruct (then_ _ Client.send_fulfilled) as [v | e0]; simpl.
  - discriminate.
  - unfold Client.send_rejected. intros [= <-]. eauto.
Qed.

Lemma send_status_not_ok (resource : Resource) (init : RequestInit)
    (net : Client.Network) (res : Response) :
  server (Client.fetch_input resource) init = Return res ->
  res_ok res = false ->
  (Client.send server resource init net).2 =
  Throw (StructuredError
    (mkBadServerDataError JNull
       (number_to_string (res_status res) +:+ " '" +:+
        res_statusText res +:+ "' received instead of 200-299 range.")
       (-32001) JUndefined)).
Proof.
  intros Hres Hok. rewrite send_outcome, Hres. simpl.
  unfold Client.send_fulfilled. rewrite Hok. reflexivity.
Qed.

(** A body that does not decode: [res.json()] rejects, and [send] rejects
    with code -32001 and id [null]. *)
Lemma send_malformed_body (resource : Resource) (init : RequestInit)
    (net : Client.Network) (res : Response) (err : JsError) :
  server (Client.fetch_input resource) init = Return res ->
  res_ok res = true ->
  res_status res <> 204 ->
  Headers_get (res_headers res) "content-length" <> Some "0" ->
  res_json res = Throw err ->
  (Client.send server resource init net).2 =
  Throw (StructuredError
    (mkBadServerDataError JNull (error_message err) (-32001) JUndefined)).
Proof.
  intros Hres Hok H204 Hlen Hjson. rewrite send_outcome, Hres. simpl.
  unfold Client.send_fulfilled. rewrite Hok. simpl.
  rewrite (proj2 (Z.eqb_neq _ _) H204), bool_decide_eq_false_2 by exact Hlen.
  simpl. rewrite Hjson. reflexivity.
Qed.


End ClientProperties.

(** C1: the code at a response whose status is outside 200-299.  The
    rejection that [send] builds with code -32002 is caught by the
    [.catch] chained after the [.then] and wrapped again: [Client.batch],
    and [Client.call] whenever it has made its request, reject with code
    -32001 and id [null], never with -32002.  ([Client.call] makes no
    request when the platform refuses its credential as a header value: it
    then throws what the [Headers] constructor throws.) *)
Theorem non_success_status_rejects_with_32001 `{Platform}
    (server : Resource -> RequestInit -> Outcome Response)
    (createRequest : string -> JsonValue -> option bool -> JsonValue)
    (createRequestBatch : JsonValue -> option bool -> JsonValue)
    (JSON_stringify : JsonValue -> string)
    (this : Client.t) (method : string) (params batchObj : JsonValue)
    (isNotification : option bool) (jwt : option string)
    (heap : Heap) (net : Client.Network) (res : Response) :
  (forall input init, server input init = Return res) ->
  res_ok res = false ->
  exists e,
    (Client.call server createRequest JSON_stringify this method params
       isNotification jwt heap net).2 =
      match Client.call_init createRequest JSON_stringify this method params
              isNotification jwt heap with
      | Return _ => Throw (StructuredError e)
      | Throw refused => Throw refused
      end /\
    (Client.batch server createRequestBatch JSON_stringify this batchObj
       isNotification heap net).2 = Throw (StructuredError e) /\
    err_code e = -32001 /\ err_id e = JNull /\
    err_message e =
      number_to_string (res_status res) +:+ " '" +:+
      res_statusText res +:+ "' received instead of 200-299 range.".
Proof.
  intros Hserver Hok. eexists. split; [|split].
  - rewrite call_outcome.
    destruct (Client.call_init _ _ _ _ _ _ _ _) as [made | refused];
      [|reflexivity].
    rewrite (send_status_not_ok server _ _ _ res (Hserver _ _) Hok).
    reflexivity.
  - rewrite batch_outcome.
    rewrite (send_status_not_ok server _ _ _ res (Hserver _ _) Hok).
    reflexivity.
  - repeat split.
Qed.

Lemma non_success_status_rejects_with_32001_witness :
  exists e,
    (Client.call (H := sample_platform) server_500 sample_createRequest
       sample_stringify sample_client "add" (JArray [JNumber 1; JNumber 2])
       None None sample_heap []).2 =
      Throw (StructuredError e) /\
    (Client.batch (H := sample_platform) server_500 sample_createRequestBatch
       sample_stringify sample_client (JArray []) None sample_heap []).2 =
      Throw (StructuredError e) /\
    err_code e = -32001 /\ err_id e = JNull /\
    err_message e =
      "500 'Internal Server Error' received instead of 200-299 range.".
Proof.
  apply (non_success_status_rejects_with_32001 (H := sample_platform)
           server_500 sample_createRequest
           sample_createRequestBatch sample_stringify sample_client "add"
           (JArray [JNumber 1; JNumber 2]) (JArray []) None None sample_heap []
           (mkResponse 500 "Internal Server Error" [] (Return JNull))).
  - intros input init. reflexivity.
  - reflexivity.
Defined.

(** *** Batch replies *)

Section BatchProperties.

Context `{Platform}.

Lemma validated_result_object (rpcResponse result : JsonValue) :
  validated_result rpcResponse = Return result ->
  exists props, rpcResponse = JObject props.
Proof.
  destruct rpcResponse; eauto; unfold validated_result;
    rewrite validateResponse_not_object by congruence; discriminate.
Qed.





Lemma processBatchObject_step_Return (acc acc' : gmap string JsonValue)
    (rpcResponse : JsonValue) :
  Client.processBatchObject_step acc rpcResponse = Return acc' <->
  exists result,
    validated_result rpcResponse = Return result /\
    acc' = set_property acc (response_key rpcResponse) result.
Proof.
  unfold Client.processBatchObject_step, response_key. split.
  - destruct (member rpcResponse "id") as [id|e] eqn:Hid; [|discriminate].
    simpl. destruct (validated_result rpcResponse) as [x|e] eqn:Hr;
      [|discriminate].
    simpl. intros [= <-]. exists x. split; [reflexivity|].
    destruct (validated_result_object _ _ Hr) as [props ->].
    injection Hid as <-. reflexivity.
  - intros (x & Hr & ->).
    destruct (validated_result_object _ _ Hr) as [props ->].
    rewrite member_object. simpl. rewrite Hr. reflexivity.
Qed.

Lemma processBatchObject_from_cons (acc m : gmap string JsonValue)
    (r : JsonValue) (items : list JsonValue) :
  Client.processBatchObject_from acc (r :: items) = Return m <->
  exists result,
    validated_result r = Return result /\
    Client.processBatchObject_from
      (set_property acc (response_key r) result) items = Return m.
Proof.
  simpl. split.
  - destruct (Client.processBatchObject_step acc r) as [acc'|e] eqn:Hstep;
      [|discriminate].
    apply processBatchObject_step_Return in Hstep as (x & Hr & ->).
    simpl. eauto.
  - intros (x & Hr & Hrest).
    assert (Client.processBatchObject_step acc r =
            Return (set_property acc (response_key r) x)) as ->
      by (apply processBatchObject_step_Return; eauto).
    exact Hrest.
Qed.




Lemma processBatchObject_from_total (items : list JsonValue) :
  forall acc : gmap string JsonValue,
  Forall (fun r => exists result, validated_result r = Return result) items ->
  exists m, Client.processBatchObject_from acc items = Return m.
Proof.
  induction items as [|r items IH]; intros acc Hall.
  - exists acc. reflexivity.
  - inversion Hall as [|? ? [x Hr] Hrest]; subst.
    destruct (IH (set_property acc (response_key r) x) Hrest) as [m Hm].
    exists m. apply processBatchObject_from_cons. eauto.
Qed.

Lemma processBatchArray_total (items : list JsonValue) :
  Forall (fun r => exists result, validated_result r = Return result) items ->
  exists results, Client.processBatchArray items = Return results.
Proof.
  induction 1 as [|r items [x Hr] _ [xs Hxs]].
  - exists []. reflexivity.
  - exists (x :: xs). simpl. rewrite Hr, Hxs. reflexivity.
Qed.


Lemma batch_fulfilled_array (batchObj : JsonValue) (isNotification : option bool)
    (items : list JsonValue) :
  items <> [] ->
  Client.batch_fulfilled batchObj isNotification (JArray items) =
  if Array_isArray batchObj
  then let! results := Client.processBatchArray items in Return (JArray results)
  else let! results := Client.processBatchObject items in Return (JObject results).
Proof.
  intros Hne. unfold Client.batch_fulfilled. simpl.
  destruct items; [contradiction | reflexivity].
Qed.


End BatchProperties.



(** *** Headers *)

Lemma lower_ascii_idem (c : ascii) : lower_ascii (lower_ascii c) = lower_ascii c.
Proof. destruct c as [[] [] [] [] [] [] [] []]; reflexivity. Qed.

Lemma byteLowerCase_idem (s : string) :
  byteLowerCase (byteLowerCase s) = byteLowerCase s.
Proof.
  induction s as [|c s IH]; simpl; [reflexivity|].
  now rewrite lower_ascii_idem, IH.
Qed.

Lemma Headers_values_lower (h : Headers) (name : string) :
  Headers_values h (byteLowerCase name) = Headers_values h name.
Proof. unfold Headers_values. now rewrite byteLowerCase_idem. Qed.

Lemma Headers_get_lower (h : Headers) (name : string) :
  Headers_get h (byteLowerCase name) = Headers_get h name.
Proof. unfold Headers_get. now rewrite Headers_values_lower. Qed.

Lemma Headers_values_app (h1 h2 : Headers) (name : string) :
  Headers_values (h1 ++ h2) name = Headers_values h1 name ++ Headers_values h2 name.
Proof. unfold Headers_values. now rewrite filter_app, map_app. Qed.

Lemma Headers_values_nil (h : Headers) (name : string) :
  Headers_values h name = [] <-> byteLowerCase name ∉ map fst h.
Proof.
  unfold Headers_values. induction h as [|[n v] h IH]; simpl.
  - split; [intros _; apply not_elem_of_nil | reflexivity].
  - rewrite filter_cons. simpl. destruct (decide (n = byteLowerCase name)) as [-> | Hne].
    + split; [discriminate|]. intros Hout. destruct Hout. left.
    + rewrite IH. rewrite not_elem_of_cons. split; [split; congruence | tauto].
Qed.

Lemma Headers_values_present (h : Headers) (name : string) :
  byteLowerCase name ∈ map fst h ->
  exists v vs, Headers_values h name = v :: vs.
Proof.
  intros Hin. destruct (Headers_values h name) as [|v vs] eqn:Hvs; [|eauto].
  apply Headers_values_nil in Hvs. contradiction.
Qed.

Lemma Headers_get_snoc_other (h : Headers) (name other value : string) :
  byteLowerCase name <> other ->
  Headers_get (h ++ [(other, value)]) name = Headers_get h name.
Proof.
  intros Hne. unfold Headers_get. rewrite Headers_values_app.
  unfold Headers_values at 2. rewrite filter_cons. simpl.
  rewrite decide_False by congruence. rewrite filter_nil. simpl.
  now rewrite app_nil_r.
Qed.

Lemma insert_name_perm (n : string) (sorted : list string) :
  insert_name n sorted ≡ₚ n :: sorted.
Proof.
  induction sorted as [|m rest IH]; simpl; [reflexivity|].
  destruct (String.leb n m); [reflexivity|].
  rewrite IH. apply Permutation_swap.
Qed.

Lemma sort_names_perm (names : list string) : sort_names names ≡ₚ names.
Proof.
  induction names as [|n names IH]; simpl; [reflexivity|].
  unfold sort_names in *. simpl. now rewrite insert_name_perm, IH.
Qed.

Lemma entry_names_NoDup (h : Headers) :
  NoDup (sort_names (remove_dups (map fst h))).
Proof. rewrite sort_names_perm. apply NoDup_remove_dups. Qed.

Lemma entry_names_elem (h : Headers) (n : string) :
  n ∈ sort_names (remove_dups (map fst h)) <-> n ∈ map fst h.
Proof. rewrite sort_names_perm. apply elem_of_remove_dups. Qed.

Lemma entry_names_lower (h : Headers) (n : string) :
  Headers_wf h -> n ∈ sort_names (remove_dups (map fst h)) ->
  byteLowerCase n = n.
Proof.
  intros Hwf Hn. apply entry_names_elem in Hn.
  apply list_elem_of_fmap in Hn as (p & -> & Hp).
  unfold Headers_wf in Hwf. rewrite Forall_forall in Hwf. now apply Hwf.
Qed.

Lemma map_flat_map_list {A B C : Type} (g : B -> C) (f : A -> list B)
    (l : list A) :
  map g (flat_map f l) = flat_map (fun x => map g (f x)) l.
Proof.
  induction l as [|x l IH]; simpl; [reflexivity|].
  now rewrite map_app, IH.
Qed.

(** Among the pairs that a list of distinct names gives rise to, those of
    one name. *)
Lemma filter_flat_map (f : string -> list (string * string))
    (names : list string) (k : string) :
  NoDup names ->
  (forall n q, n ∈ names -> q ∈ f n -> fst q = n) ->
  filter (fun q : string * string => fst q = k) (flat_map f names) =
  if decide (k ∈ names) then f k else [].
Proof.
  induction 1 as [|n names Hn Hnd IH]; intros Hf; simpl.
  - reflexivity.
  - rewrite filter_app.
    rewrite IH by (intros n' q Hn' Hq; apply (Hf n' q); [now right | exact Hq]).
    destruct (decide (n = k)) as [-> | Hne].
    + rewrite (decide_False (P := k ∈ names)) by exact Hn.
      rewrite (decide_True (P := k ∈ k :: names)) by left.
      rewrite app_nil_r. apply filter_all, Forall_forall.
      intros q Hq. apply (Hf k q); [left | exact Hq].
    + rewrite (filter_none (fun q : string * string => fst q = k) (f n)).
      * simpl. destruct (decide (k ∈ names)) as [Hin | Hout].
        -- rewrite (decide_True (P := k ∈ n :: names)) by (now right).
           reflexivity.
        -- rewrite (decide_False (P := k ∈ n :: names)); [reflexivity|].
           intros Hin. apply elem_of_cons in Hin as [-> | Hin]; congruence.
      * apply Forall_forall. intros q Hq Hk.
        rewrite (Hf n q) in Hk; [congruence | left | exact Hq].
Qed.



Lemma truthy_string_Some (token : string) :
  token <> "" -> truthy_string (Some token) = true.
Proof. destruct token; [congruence | reflexivity]. Qed.

Lemma Headers_at_lookup (heap : Heap) (ref : nat) (h : Headers) :
  heap !! ref = Some h -> Headers_at heap ref = h.
Proof. intros Hh. unfold Headers_at. now rewrite Hh. Qed.

Lemma Headers_at_app (heap : Heap) (ref : nat) (h h' : Headers) :
  heap !! ref = Some h -> Headers_at (heap ++ [h']) ref = h.
Proof.
  intros Hh. apply Headers_at_lookup.
  rewrite lookup_app_l by (eapply lookup_lt_Some; exact Hh). exact Hh.
Qed.

Section HeadersProperties.

Context `{Platform}.

Lemma Headers_append_Return (h h' : Headers) (name value : string) :
  Headers_append h name value = Return h' <->
  header_accepted name value = true /\ h' = h ++ [stored_pair (name, value)].
Proof.
  unfold Headers_append, stored_pair. simpl.
  destruct (header_accepted name value).
  - split; [intros [= <-]; split; reflexivity | intros [_ ->]; reflexivity].
  - split; [discriminate | intros [Hacc _]; discriminate].
Qed.

(** [new Headers(init)] returns when the platform accepts every pair, and
    then holds the pairs as it stores them, in their order. *)
Lemma Headers_fill_Return (init : list (string * string)) :
  forall h h' : Headers,
  Headers_fill h init = Return h' <->
  Forall (fun p => header_accepted (fst p) (snd p) = true) init /\
  h' = h ++ map stored_pair init.
Proof.
  induction init as [|p init IH]; intros h h'; simpl.
  - rewrite app_nil_r. split.
    + intros [= <-]. split; [constructor | reflexivity].
    + intros [_ ->]. reflexivity.
  - unfold Headers_append.
    destruct (header_accepted (fst p) (snd p)) eqn:Hacc; simpl.
    + rewrite IH, <- app_assoc. simpl. split.
      * intros [Hall ->]. split; [now constructor | reflexivity].
      * intros [Hall ->]. inversion Hall; subst. split; [assumption | reflexivity].
    + split; [discriminate|]. intros [Hall _]. inversion Hall; congruence.
Qed.

Lemma Headers_fill_Throw (init : list (string * string)) :
  forall (h : Headers) (e : JsError),
  Headers_fill h init = Throw e -> e = invalid_header.
Proof.
  induction init as [|p init IH]; intros h e; simpl; [discriminate|].
  unfold Headers_append. destruct (header_accepted (fst p) (snd p)); simpl.
  - apply IH.
  - now intros [= <-].
Qed.

Lemma Headers_fill_app (l1 l2 : list (string * string)) :
  forall h : Headers,
  Headers_fill h (l1 ++ l2) =
  let! h' := Headers_fill h l1 in Headers_fill h' l2.
Proof.
  induction l1 as [|p l1 IH]; intros h; simpl; [reflexivity|].
  destruct (Headers_append h (fst p) (snd p)) as [h1|e]; simpl;
    [apply IH | reflexivity].
Qed.

Lemma Headers_new_snoc (init : list (string * string)) (name value : string) :
  Headers_new (init ++ [(name, value)]) =
  let! copy := Headers_new init in Headers_append copy name value.
Proof.
  unfold Headers_new. rewrite Headers_fill_app.
  destruct (Headers_fill [] init) as [copy|e]; simpl; [|reflexivity].
  destruct (Headers_append copy name value); reflexivity.
Qed.

Lemma Headers_new_Return (init : list (string * string)) (h : Headers) :
  Headers_new init = Return h <->
  Forall (fun p => header_accepted (fst p) (snd p) = true) init /\
  h = map stored_pair init.
Proof. unfold Headers_new. now rewrite Headers_fill_Return. Qed.




(** The values of a name in a copy made from the entries of an object: the
    values of [set-cookie] one by one, and the combined value of any other
    name, each as the platform stores it again. *)
Lemma Headers_values_stored_entries (p : Headers) (name : string) :
  Headers_wf p ->
  Headers_values (map stored_pair (Headers_entries p)) name =
  if String.eqb (byteLowerCase name) "set-cookie"
  then map header_value_normalize (Headers_values p name)
  else match Headers_get p name with
       | Some v => [header_value_normalize v]
       | None => []
       end.
Proof.
  intros Hwf. unfold Headers_values at 1, Headers_entries.
  rewrite map_flat_map_list, filter_flat_map.
  - destruct (decide (byteLowerCase name ∈ _)) as [Hin | Hout].
    + apply entry_names_elem in Hin.
      destruct (Headers_values_present p name Hin) as (v & vs & Hvs).
      destruct (String.eqb (byteLowerCase name) "set-cookie").
      * rewrite Headers_values_lower, !map_map. reflexivity.
      * simpl. rewrite Headers_get_lower. unfold Headers_get. rewrite Hvs.
        reflexivity.
    + rewrite entry_names_elem in Hout. apply Headers_values_nil in Hout.
      unfold Headers_get. rewrite Hout.
      destruct (String.eqb (byteLowerCase name) "set-cookie"); reflexivity.
  - apply entry_names_NoDup.
  - intros n q Hn Hq. apply list_elem_of_fmap in Hq as (q0 & -> & Hq0).
    simpl. transitivity (byteLowerCase n);
      [f_equal | exact (entry_names_lower p n Hwf Hn)].
    destruct (String.eqb n "set-cookie").
    + apply list_elem_of_fmap in Hq0 as (v & -> & _). reflexivity.
    + apply list_elem_of_singleton in Hq0 as ->. reflexivity.
Qed.

Lemma Headers_entries_values (p : Headers) (name v : string) :
  byteLowerCase name = "set-cookie" ->
  v ∈ Headers_values p name ->
  ("set-cookie", v) ∈ Headers_entries p.
Proof.
  intros Hname Hv. unfold Headers_entries.
  apply list_elem_of_In, in_flat_map. exists "set-cookie". split.
  - apply list_elem_of_In, entry_names_elem. rewrite <- Hname.
    destruct (decide (byteLowerCase name ∈ map fst p)) as [Hin | Hout];
      [exact Hin|].
    apply Headers_values_nil in Hout. rewrite Hout in Hv. inversion Hv.
  - simpl. apply list_elem_of_In, list_elem_of_fmap. exists v.
    split; [reflexivity|].
    rewrite <- Hname, Headers_values_lower. exact Hv.
Qed.

Lemma Headers_entries_get (p : Headers) (name v : string) :
  byteLowerCase name <> "set-cookie" ->
  Headers_get p name = Some v ->
  (byteLowerCase name, v) ∈ Headers_entries p.
Proof.
  intros Hname Hv. unfold Headers_entries.
  apply list_elem_of_In, in_flat_map. exists (byteLowerCase name). split.
  - apply list_elem_of_In, entry_names_elem.
    destruct (decide (byteLowerCase name ∈ map fst p)) as [Hin | Hout];
      [exact Hin|].
    apply Headers_values_nil in Hout. unfold Headers_get in Hv.
    rewrite Hout in Hv. discriminate.
  - apply String.eqb_neq in Hname. rewrite Hname, Headers_get_lower, Hv.
    left. reflexivity.
Qed.

(** A copy made from the entries of an object reads as the object does,
    when the platform stores the values of the entries as they are. *)
Lemma Headers_get_copy (p copy : Headers) (name : string) :
  Headers_wf p ->
  Headers_new (Headers_entries p) = Return copy ->
  (forall n v, (n, v) ∈ Headers_entries p -> header_value_normalize v = v) ->
  Headers_get copy name = Headers_get p name.
Proof.
  intros Hwf Hcopy Hfixed. apply Headers_new_Return in Hcopy as [_ ->].
  unfold Headers_get at 1. rewrite (Headers_values_stored_entries p name Hwf).
  destruct (String.eqb (byteLowerCase name) "set-cookie") eqn:Hname.
  - apply String.eqb_eq in Hname.
    rewrite (map_ext_in _ id), map_id; [reflexivity|].
    intros v Hv. apply (Hfixed "set-cookie").
    apply (Headers_entries_values p name v Hname). now apply list_elem_of_In.
  - apply String.eqb_neq in Hname.
    destruct (Headers_get p name) as [v|] eqn:Hv; [|reflexivity].
    simpl. f_equal.
    exact (Hfixed _ _ (Headers_entries_get p name v Hname Hv)).
Qed.

End HeadersProperties.

Section CallHeaders.

Context `{Platform}.
Variable createRequest : string -> JsonValue -> option bool -> JsonValue.
Variable JSON_stringify : JsonValue -> string.

(** The request of a call without a credential holds the client's own
    [Headers] object, and no object is made. *)
Lemma call_init_plain (this : Client.t) (method : string) (params : JsonValue)
    (isNotification : option bool) (jwt : option string) (heap : Heap) :
  truthy_string jwt = false ->
  Client.call_init createRequest JSON_stringify this method params
    isNotification jwt heap =
  Return
    (mkRequestInit (Client.stored_method (Client.fetchInit this))
       (Headers_at heap (Client.stored_headers (Client.fetchInit this)))
       (Some (JSON_stringify (createRequest method params isNotification))),
     heap).
Proof. intros Hjwt. unfold Client.call_init. rewrite Hjwt. reflexivity. Qed.

(** The request of a call with a credential holds a new [Headers] object,
    made from the entries of the client's own and the credential. *)
Lemma call_init_bearer (this : Client.t) (method : string) (params : JsonValue)
    (isNotification : option bool) (jwt : option string) (heap : Heap) :
  truthy_string jwt = true ->
  Client.call_init createRequest JSON_stringify this method params
    isNotification jwt heap =
  let! copy :=
    Headers_new
      (Headers_entries
         (Headers_at heap (Client.stored_headers (Client.fetchInit this)))) in
  let! h := Headers_append copy "Authorization" ("Bearer " +:+ default "" jwt) in
  Return
    (mkRequestInit (Client.stored_method (Client.fetchInit this)) h
       (Some (JSON_stringify (createRequest method params isNotification))),
     heap ++ [h]).
Proof.
  intros Hjwt. unfold Client.call_init. rewrite Hjwt, Headers_new_snoc.
  destruct (Headers_new _) as [copy|e]; simpl; [|reflexivity].
  destruct (Headers_append copy _ _); reflexivity.
Qed.

End CallHeaders.

(** C9, as written, fails in three places: a client made with an
    [Authorization] header among its options sends it with every call, so
    the call that follows one with a credential carries an [Authorization]
    header; a call whose credential is the empty string attaches no header
    at all; and a call whose credential the platform refuses as a header
    value throws before any request is made. *)
Lemma call_authorization_header_cases :
  let first :=
    Client.call (H := sample_platform) server_500 sample_createRequest
      sample_stringify basic_auth_client "add" JNull None (Some "token")
      sample_heap [] in
  let second :=
    Client.call (H := sample_platform) server_500 sample_createRequest
      sample_stringify first.1.1.1 "add" JNull None None first.1.1.2
      first.1.2 in
  let empty :=
    Client.call (H := sample_platform) server_500 sample_createRequest
      sample_stringify sample_client "add" JNull None (Some "") sample_heap [] in
  let refused :=
    Client.call (H := sample_platform) server_500 sample_createRequest
      sample_stringify sample_client "add" JNull None (Some line_feed_token)
      sample_heap [] in
  (exists init,
     last second.1.2 = Some (ResourceString "http://localhost:8000", init) /\
     Headers_get (init_headers init) "Authorization" =
       Some "Basic dXNlcjpwdw==") /\
  (exists init,
     last empty.1.2 = Some (ResourceString "http://localhost:8000", init) /\
     Headers_get (init_headers init) "Authorization" = None) /\
  (refused.1.2 = [] /\ refused.2 = Throw invalid_header).
Proof.
  split; [|split].
  - eexists. split; vm_compute; reflexivity.
  - eexists. split; vm_compute; reflexivity.
  - split; vm_compute; reflexivity.
Qed.

(** C9 (amended): for a credential that is not the empty string and that
    the platform accepts as the header value [Bearer <jwt>], [call] makes
    one new [Headers] object, which holds the entries of the client's own
    object followed by one pair of the name [authorization] and that value
    as the platform stores it, and hands [fetch] one request with it; the
    other headers read as the client's own when the platform stores their
    values as they are; the client and its own [Headers] object are as they
    were, and a following call without a credential sends exactly the
    client's own headers.  For a credential that the platform refuses,
    [call] throws, and makes no request and no object.  With the empty
    string for a credential, [call] sends the client's own headers and
    makes no object. *)
Theorem call_bearer_header_for_one_call `{Platform}
    (server : Resource -> RequestInit -> Outcome Response)
    (createRequest : string -> JsonValue -> option bool -> JsonValue)
    (JSON_stringify : JsonValue -> string)
    (this : Client.t) (method method' : string) (params params' : JsonValue)
    (isNotification isNotification' : option bool) (token : string)
    (heap : Heap) (net : Client.Network) (persistent copy : Headers) :
  token <> "" ->
  heap !! Client.stored_headers (Client.fetchInit this) = Some persistent ->
  Headers_new (Headers_entries persistent) = Return copy ->
  let first :=
    Client.call server createRequest JSON_stringify this method params
      isNotification (Some token) heap net in
  let second :=
    Client.call server createRequest JSON_stringify first.1.1.1 method' params'
      isNotification' None first.1.1.2 first.1.2 in
  let empty :=
    Client.call server createRequest JSON_stringify this method params
      isNotification (Some "") heap net in
  (header_accepted "Authorization" ("Bearer " +:+ token) = true ->
   exists init init',
     first.1.2 = net ++ [(Client.fetch_input (Client.resource this), init)] /\
     init_headers init =
       copy ++
       [("authorization", header_value_normalize ("Bearer " +:+ token))] /\
     (Headers_wf persistent ->
      (forall n v, (n, v) ∈ Headers_entries persistent ->
         header_value_normalize v = v) ->
      forall name, byteLowerCase name <> "authorization" ->
        Headers_get (init_headers init) name = Headers_get persistent name) /\
     first.1.1.1 = this /\
     first.1.1.2 = heap ++ [init_headers init] /\
     second.1.2 =
       first.1.2 ++ [(Client.fetch_input (Client.resource this), init')] /\
     init_headers init' = persistent /\
     second.1.1.1 = this /\
     second.1.1.2 = first.1.1.2) /\
  (header_accepted "Authorization" ("Bearer " +:+ token) = false ->
   first.2 = Throw invalid_header /\
   first.1.2 = net /\ first.1.1.2 = heap /\ first.1.1.1 = this) /\
  (exists init,
     empty.1.2 = net ++ [(Client.fetch_input (Client.resource this), init)] /\
     init_headers init = persistent /\
     empty.1.1.2 = heap /\ empty.1.1.1 = this).
Proof.
  intros Htoken Hown Hcopy first second empty.
  pose proof (call_init_bearer createRequest JSON_stringify this method params
                isNotification (Some token) heap
                (truthy_string_Some _ Htoken)) as Hinit.
  rewrite (Headers_at_lookup _ _ _ Hown), Hcopy in Hinit. simpl in Hinit.
  unfold Headers_append in Hinit.
  split; [|split].
  - intros Haccepted. rewrite Haccepted in Hinit.
    set (h := copy ++
               [("authorization", header_value_normalize ("Bearer " +:+ token))]).
    assert (first =
              (this, heap ++ [h],
               net ++ [(Client.fetch_input (Client.resource this),
                        mkRequestInit
                          (Client.stored_method (Client.fetchInit this)) h
                          (Some (JSON_stringify
                                   (createRequest method params isNotification))))],
               first.2)) as Hfirst.
    { unfold first, Client.call. rewrite Hinit. reflexivity. }
    assert (second.1 =
              (this, heap ++ [h],
               first.1.2 ++
               [(Client.fetch_input (Client.resource this),
                 mkRequestInit
                   (Client.stored_method (Client.fetchInit this)) persistent
                   (Some (JSON_stringify
                            (createRequest method' params' isNotification'))))]))
      as Hsecond.
    { unfold second. rewrite Hfirst. cbn [fst snd].
      unfold Client.call.
      rewrite call_init_plain by reflexivity.
      rewrite (Headers_at_app _ _ _ h Hown). reflexivity. }
    eexists _, _.
    split; [rewrite Hfirst; reflexivity|].
    split; [reflexivity|].
    split.
    { intros Hwf Hfixed name Hname. simpl. unfold h.
      rewrite Headers_get_snoc_other by exact Hname.
      exact (Headers_get_copy persistent copy name Hwf Hcopy Hfixed). }
    split; [rewrite Hfirst; reflexivity|].
    split; [rewrite Hfirst; reflexivity|].
    rewrite Hsecond. simpl.
    split; [reflexivity|]. split; [reflexivity|].
    split; [reflexivity|]. rewrite Hfirst. reflexivity.
  - intros Hrefused. rewrite Hrefused in Hinit.
    unfold first, Client.call. rewrite Hinit. repeat split.
  - unfold empty, Client.call.
    rewrite call_init_plain by reflexivity.
    rewrite (Headers_at_lookup _ _ _ Hown). simpl.
    eexists. repeat split.
Qed.

Lemma call_bearer_header_for_one_call_witness :
  let first :=
    Client.call (H := sample_platform) server_500 sample_createRequest
      sample_stringify sample_client "add" JNull None (Some "secret")
      sample_heap [] in
  let second :=
    Client.call (H := sample_platform) server_500 sample_createRequest
      sample_stringify first.1.1.1 "sub" JNull None None first.1.1.2
      first.1.2 in
  exists init init',
    first.1.2 = [(ResourceString "http://localhost:8000", init)] /\
    init_headers init =
      [("content-type", "application/json");
       ("authorization", "Bearer secret")] /\
    first.1.1.1 = sample_client /\
    first.1.1.2 = sample_heap ++ [init_headers init] /\
    second.1.2 =
      first.1.2 ++ [(ResourceString "http://localhost:8000", init')] /\
    init_headers init' = [("content-type", "application/json")] /\
    second.1.1.1 = sample_client /\
    second.1.1.2 = first.1.1.2.
Proof.
  destruct (call_bearer_header_for_one_call (H := sample_platform) server_500
              sample_createRequest sample_stringify sample_client "add" "sub"
              JNull JNull None None "secret" sample_heap []
              [("content-type", "application/json")]
              [("content-type", "application/json")])
    as (Haccepted & _ & _); [discriminate | reflexivity | reflexivity |].
  destruct (Haccepted eq_refl)
    as (init & init' & Hnet & Hheaders & _ & Hthis & Hheap & Hnet' & Hheaders'
        & Hthis' & Hheap').
  exists init, init'.
  split; [exact Hnet|]. split; [exact Hheaders|]. split; [exact Hthis|].
  split; [exact Hheap|]. split; [exact Hnet'|]. split; [exact Hheaders'|].
  split; [exact Hthis' | exact Hheap'].
Defined.

(** ** The WebSocket handler *)

Section ServerProperties.

Context `{Collaborators}.

Lemma removeEventListener_sublist (c : nat) (ls : list nat) :
  removeEventListener c ls `sublist_of` ls.
Proof. apply sublist_filter. Qed.

Lemma removeEventListener_gone (c : nat) (ls : list nat) :
  c ∉ removeEventListener c ls.
Proof.
  unfold removeEventListener. intros Hin.
  apply list_elem_of_filter in Hin as [Hne _]. now apply Hne.
Qed.

Lemma addEventListener_elem (c c' : nat) (ls : list nat) :
  c' ∈ addEventListener c ls <-> c' ∈ ls \/ c' = c.
Proof.
  unfold addEventListener. case_bool_decide as Hin.
  - split; [now left|]. intros [Hc | ->]; assumption.
  - rewrite elem_of_app, list_elem_of_singleton. reflexivity.
Qed.

Lemma addEventListener_NoDup (c : nat) (ls : list nat) :
  NoDup ls -> NoDup (addEventListener c ls).
Proof.
  intros Hnd. unfold addEventListener. case_bool_decide as Hin; [exact Hnd|].
  apply NoDup_app. split; [exact Hnd|]. split.
  - intros x Hx Hx'. apply list_elem_of_singleton in Hx'. congruence.
  - apply NoDup_singleton.
Qed.

(** Updating a channel without touching its options. *)
Lemma channels_insert (chs : list Channel) (c0 : nat) (ch0 ch' : Channel) :
  chs !! c0 = Some ch0 -> options ch' = options ch0 ->
  forall c ch, chs !! c = Some ch ->
    exists ch'', <[c0 := ch']> chs !! c = Some ch'' /\ options ch'' = options ch.
Proof.
  intros H0 Hopt c ch Hc. destruct (decide (c0 = c)) as [<- | Hne].
  - exists ch'. split.
    + apply list_lookup_insert_eq. now apply lookup_lt_is_Some; eauto.
    + congruence.
  - exists ch. split; [|reflexivity]. now rewrite list_lookup_insert_ne.
Qed.

(** A step that starts no callback and registers nothing. *)
Lemma frame_local (w w' : World) :
  (forall c ch, channels w !! c = Some ch ->
     exists ch', channels w' !! c = Some ch' /\ options ch' = options ch) ->
  listeners w' `sublist_of` listeners w ->
  emissions w' = emissions w ->
  (forall p, p ∈ pending w' ++ attempts w' -> p ∈ pending w ++ attempts w) ->
  step_frame w w'.
Proof.
  intros Hch Hls Hem Hps. constructor.
  - exact Hch.
  - intros c Hc. left. eapply elem_of_sublist; eassumption.
  - intros Hnd. eapply sublist_NoDup; eassumption.
  - now rewrite Hem.
  - intros p Hp. left. now apply Hps.
Qed.

Lemma frame_refl (w : World) : step_frame w w.
Proof. apply frame_local; eauto. Qed.

Lemma frame_set_channel (w : World) (c : nat) (ch0 ch : Channel) :
  channels w !! c = Some ch0 -> options ch = options ch0 ->
  step_frame w (set_channel c ch w).
Proof.
  intros H0 Hopt. apply frame_local; simpl; auto.
  now apply (channels_insert _ _ ch0).
Qed.

Lemma frame_remove_listener (w : World) (c : nat) :
  step_frame w (set_listeners (removeEventListener c (listeners w)) w).
Proof.
  apply frame_local; simpl; eauto using removeEventListener_sublist.
Qed.

Lemma socket_send_options (frame : string) (ch : Channel) :
  options (socket_send frame ch).1 = options ch.
Proof. unfold socket_send. destruct (send_settles (socket ch)); reflexivity. Qed.

Lemma frame_catch (w : World) (c : nat) (ch0 ch : Channel) :
  channels w !! c = Some ch0 -> options ch = options ch0 ->
  step_frame w (handleWs_catch c ch w).
Proof.
  intros H0 Hopt. unfold handleWs_catch.
  apply frame_local.
  - destruct (negb (truthy_flag _)), (negb (isClosed _)); simpl;
      apply (channels_insert _ _ ch0); auto.
  - destruct (negb (truthy_flag _)), (negb (isClosed _)); simpl;
      auto using removeEventListener_sublist.
  - destruct (negb (truthy_flag _)), (negb (isClosed _)); reflexivity.
  - destruct (negb (truthy_flag _)), (negb (isClosed _)); simpl; auto.
Qed.

Lemma frame_event (w : World) (c : nat) (ev : WebSocketEvent) (ch : Channel) :
  channels w !! c = Some ch ->
  step_frame w (handleWs_event c ev ch w).
Proof.
  intros Hc. destruct ev as [text| |body|body|code reason]; simpl;
    try apply frame_refl.
  - destruct (text_response ch text) as [frame|]; [|apply frame_refl].
    pose proof (socket_send_options frame ch) as Hopt.
    destruct (socket_send frame ch) as [ch' [[]|e]]; simpl in Hopt.
    + now apply (frame_set_channel _ _ ch).
    + now apply (frame_catch _ _ ch).
  - destruct (negb (truthy_flag _)).
    + apply frame_remove_listener.
    + apply frame_refl.
Qed.

Lemma frame_connect (w : World) (sock : WebSocket) (ms : Methods) (os : Options)
    (store : gmap string (gset string)) :
  step_frame w (handleWs_connect sock ms os store w).
Proof.
  constructor; simpl.
  - intros c ch Hc. exists ch. split; [|reflexivity].
    now apply lookup_app_l_Some.
  - intros c Hc.
    destruct (truthy_flag (disableInternalMethods os)) eqn:Hdis; simpl in Hc;
      [now left|].
    apply addEventListener_elem in Hc as [Hc | ->]; [now left|].
    right. split; [now apply lookup_ge_None|].
    eexists. split; [apply list_lookup_middle; reflexivity|].
    exact Hdis.
  - intros Hnd. destruct (negb (truthy_flag _)); [|exact Hnd].
    now apply addEventListener_NoDup.
  - reflexivity.
  - intros p Hp. now left.
Qed.

(** The callbacks an event starts are those of the registered listeners. *)
Lemma emit_pushes_elem (c n : nat) (ch : Channel) (event : Emission) (p : Push) :
  p ∈ emit_pushes c n ch event -> push_channel p = c /\ push_emission p = n.
Proof.
  unfold emit_pushes. destruct (emitListener ch event) as [frames|].
  - intros Hp. apply list_elem_of_fmap in Hp as (frame & -> & _). now split.
  - intros Hp. now apply not_elem_of_nil in Hp.
Qed.

Lemma dispatchEvent_new_pushes (event : Emission) (w : World) (p : Push) :
  p ∈ pending (dispatchEvent event w) ->
  p ∈ pending w \/
  (push_channel p ∈ listeners w /\ push_emission p = emissions w).
Proof.
  simpl. rewrite elem_of_app. intros [Hp | Hp]; [now left|]. right.
  apply list_elem_of_In, in_flat_map in Hp as (c & Hc & Hp).
  apply list_elem_of_In in Hc, Hp.
  destruct (channels w !! c) as [ch|]; [|now apply not_elem_of_nil in Hp].
  apply emit_pushes_elem in Hp as [-> ->]. now split.
Qed.

Lemma frame_dispatch (event : Emission) (w : World) :
  step_frame w (dispatchEvent event w).
Proof.
  constructor.
  - simpl. eauto.
  - simpl. now left.
  - simpl. auto.
  - simpl. lia.
  - intros p Hp. apply elem_of_app in Hp as [Hp | Hp].
    + apply dispatchEvent_new_pushes in Hp as [Hp | [Hc Hn]].
      * left. apply elem_of_app. now left.
      * right. split; [exact Hc|]. split; [exact Hn|]. simpl. lia.
    + left. apply elem_of_app. now right.
Qed.

Lemma frame_deliver (w : World) (k : nat) (p : Push) (ch : Channel) :
  pending w !! k = Some p ->
  channels w !! push_channel p = Some ch ->
  step_frame w
    (emit_write p ch
       (mkWorld (channels w) (listeners w) (emissions w)
          (delete k (pending w)) (attempts w ++ [p]))).1.
Proof.
  intros Hk Hch.
  assert (forall q, q ∈ delete k (pending w) ++ attempts w ++ [p] ->
                    q ∈ pending w ++ attempts w) as Hpushes.
  { intros q Hq. rewrite !elem_of_app in Hq. rewrite elem_of_app.
    destruct Hq as [Hq | [Hq | Hq]].
    - left. eapply list_elem_of_delete_inv, Hq.
    - now right.
    - apply list_elem_of_singleton in Hq as ->. left.
      eapply list_elem_of_lookup_2, Hk. }
  unfold emit_write.
  pose proof (socket_send_options (push_frame p) ch) as Hopt.
  destruct (socket_send (push_frame p) ch) as [ch' [[]|e]]; simpl in Hopt;
    apply frame_local; simpl; eauto using removeEventListener_sublist.
  now apply (channels_insert _ _ ch).
Qed.

Lemma running_Some (c : nat) (w : World) (ch : Channel) :
  running c w = Some ch <-> channels w !! c = Some ch /\ settled ch = None.
Proof.
  unfold running. destruct (channels w !! c) as [ch'|].
  - destruct (settled ch') eqn:Hs; split.
    + discriminate.
    + intros [[= ->] Hs']. congruence.
    + intros [= ->]. now split.
    + intros [[= ->] _]. reflexivity.
  - split; [discriminate | intros [? _]; discriminate].
Qed.

Lemma step_frame_holds (l : Label) (w w' : World) :
  step l w = Some w' -> step_frame w w'.
Proof.
  destruct l as [sock ms os store|c ev|c|c|c sock|c store|event|k]; simpl.
  - intros [= <-]. apply frame_connect.
  - destruct (running c w) as [ch|] eqn:Hrun; [|discriminate].
    apply running_Some in Hrun as [Hc _].
    intros [= <-]. now apply frame_event.
  - destruct (running c w) as [ch|] eqn:Hrun; [|discriminate].
    apply running_Some in Hrun as [Hc _].
    intros [= <-]. now apply (frame_catch _ _ ch).
  - destruct (running c w) as [ch|] eqn:Hrun; [|discriminate].
    apply running_Some in Hrun as [Hc _].
    intros [= <-]. now apply (frame_set_channel _ _ ch).
  - destruct (channels w !! c) as [ch|] eqn:Hc; [|discriminate].
    intros [= <-]. now apply (frame_set_channel _ _ ch).
  - destruct (channels w !! c) as [ch|] eqn:Hc; [|discriminate].
    intros [= <-]. now apply (frame_set_channel _ _ ch).
  - intros [= <-]. apply frame_dispatch.
  - destruct (pending w !! k) as [p|] eqn:Hk; [|discriminate].
    destruct (channels w !! push_channel p) as [ch|] eqn:Hc; [|discriminate].
    intros [= <-]. now apply frame_deliver.
Qed.

(** *** The invariant *)

Lemma initial_invariant : world_invariant initial_world.
Proof.
  split; [constructor|]. split.
  - intros c Hc. now apply not_elem_of_nil in Hc.
  - intros p Hp. now apply not_elem_of_nil in Hp.
Qed.

Lemma frame_invariant (w w' : World) :
  step_frame w w' -> world_invariant w -> world_invariant w'.
Proof.
  intros Hf (Hnd & Hls & Hps). split; [|split].
  - now apply (frame_NoDup _ _ Hf).
  - intros c Hc.
    destruct (frame_listeners _ _ Hf c Hc) as [Hold | [_ Hnew]]; [|exact Hnew].
    destruct (Hls c Hold) as (ch & Hch & Hen).
    destruct (frame_channels _ _ Hf c ch Hch) as (ch' & Hch' & Hopt).
    exists ch'. split; [exact Hch'|].
    unfold internal_methods_disabled in *. now rewrite Hopt.
  - intros p Hp. pose proof (frame_emissions _ _ Hf) as Hle.
    destruct (frame_pushes _ _ Hf p Hp) as [Hold | (Hc & Hn & Hlt)].
    + destruct (Hps p Hold) as (Hlt & ch & Hch & Hen).
      split; [lia|].
      destruct (frame_channels _ _ Hf _ ch Hch) as (ch' & Hch' & Hopt).
      exists ch'. split; [exact Hch'|].
      unfold internal_methods_disabled in *. now rewrite Hopt.
    + split; [lia|].
      destruct (Hls _ Hc) as (ch & Hch & Hen).
      destruct (frame_channels _ _ Hf _ ch Hch) as (ch' & Hch' & Hopt).
      exists ch'. split; [exact Hch'|].
      unfold internal_methods_disabled in *. now rewrite Hopt.
Qed.

Lemma run_invariant (ls : list Label) :
  forall w w', run ls w = Some w' -> world_invariant w -> world_invariant w'.
Proof.
  induction ls as [|l ls IH]; intros w w' Hrun Hinv; simpl in Hrun.
  - now injection Hrun as <-.
  - destruct (step l w) as [w1|] eqn:Hstep; [|discriminate].
    apply (IH w1 w' Hrun).
    exact (frame_invariant _ _ (step_frame_holds _ _ _ Hstep) Hinv).
Qed.

Lemma reachable_invariant (ls : list Label) (w : World) :
  run ls initial_world = Some w -> world_invariant w.
Proof. intros Hrun. exact (run_invariant _ _ _ Hrun initial_invariant). Qed.

(** *** A channel without a listener *)

Lemma frame_deregistered (c n : nat) (w w' : World) :
  step_frame w w' -> deregistered c n w -> deregistered c n w'.
Proof.
  intros Hf ([ch Hch] & Hout & Hps). split; [|split].
  - destruct (frame_channels _ _ Hf c ch Hch) as (ch' & Hch' & _). eauto.
  - intros Hin.
    destruct (frame_listeners _ _ Hf c Hin) as [Hold | [Hnone _]];
      [contradiction | congruence].
  - intros p Hp Hc.
    destruct (frame_pushes _ _ Hf p Hp) as [Hold | (Hl & _)].
    + now apply Hps.
    + rewrite Hc in Hl. contradiction.
Qed.

Lemma run_deregistered (ls : list Label) :
  forall (c n : nat) (w w' : World),
  run ls w = Some w' -> deregistered c n w -> deregistered c n w'.
Proof.
  induction ls as [|l ls IH]; intros c n w w' Hrun Hd; simpl in Hrun.
  - now injection Hrun as <-.
  - destruct (step l w) as [w1|] eqn:Hstep; [|discriminate].
    apply (IH c n w1 w' Hrun).
    exact (frame_deregistered _ _ _ _ (step_frame_holds _ _ _ Hstep) Hd).
Qed.

(** Once a channel of a reachable world has no listener, no event that
    follows starts a callback for it. *)
Lemma deregistered_no_later_push (c : nat) (w : World) :
  world_invariant w -> is_Some (channels w !! c) -> c ∉ listeners w ->
  no_later_push c w.
Proof.
  intros (_ & _ & Hps) Hch Hout later w' Hrun.
  apply (run_deregistered later c (emissions w) w w' Hrun).
  split; [exact Hch|]. split; [exact Hout|].
  intros p Hp _. now destruct (Hps p Hp).
Qed.

End ServerProperties.

Section FanOut.

Context `{Collaborators}.

Lemma omap_id_map {A B : Type} (f : A -> option B) (l : list A) :
  omap id (map f l) = omap f l.
Proof.
  induction l as [|x l IH]; simpl; [reflexivity|].
  destruct (f x); simpl; [f_equal|]; exact IH.
Qed.

Lemma omap_Some_sublist {A B : Type} (f : A -> option B) (l : list A) :
  (Some <$> omap f l) `sublist_of` map f l.
Proof.
  induction l as [|x l IH]; simpl; [constructor|].
  destruct (f x) as [y|] eqn:Hy; simpl.
  - now constructor.
  - now constructor.
Qed.

(** The callbacks of one channel among those of all the listeners. *)
Lemma flat_map_channel (f : nat -> list Push) (ls : list nat) (c : nat) :
  (forall c' p, p ∈ f c' -> push_channel p = c') ->
  NoDup ls ->
  filter (fun p => push_channel p = c) (flat_map f ls) =
  if decide (c ∈ ls) then f c else [].
Proof.
  intros Hf. induction 1 as [|a ls Ha Hnd IH]; simpl; [reflexivity|].
  rewrite filter_app, IH. destruct (decide (a = c)) as [-> | Hne].
  - rewrite (decide_False (P := c ∈ ls)) by exact Ha.
    rewrite decide_True by left.
    rewrite app_nil_r. apply filter_all, Forall_forall. intros p Hp.
    exact (Hf _ _ Hp).
  - rewrite filter_none.
    + simpl. destruct (decide (c ∈ ls)) as [Hin | Hout].
      * now rewrite decide_True by (now right).
      * rewrite decide_False; [reflexivity|].
        intros Hin. apply elem_of_cons in Hin as [-> | Hin]; congruence.
    + apply Forall_forall. intros p Hp Hc. apply Hne.
      rewrite <- Hc. symmetry. exact (Hf _ _ Hp).
Qed.

Lemma emit_pushes_ids (c n : nat) (ch : Channel) (event : Emission) :
  emit_pushes c n ch event =
  omap (fun id => mkPush c n <$> emit_response ch event id)
    (elements (default ∅ (methodsAndIdsStore ch !! emission_method event))).
Proof.
  unfold emit_pushes, emitListener.
  destruct (methodsAndIdsStore ch !! emission_method event) as [ids|]; simpl.
  - rewrite omap_id_map. apply list_fmap_omap.
  - now rewrite elements_empty.
Qed.

Lemma dispatchEvent_channel (event : Emission) (w : World) (c : nat) (ch : Channel) :
  NoDup (listeners w) -> c ∈ listeners w -> channels w !! c = Some ch ->
  filter (fun p => push_channel p = c) (pending (dispatchEvent event w)) =
  filter (fun p => push_channel p = c) (pending w) ++
  emit_pushes c (emissions w) ch event.
Proof.
  intros Hnd Hin Hch. simpl. rewrite filter_app. f_equal.
  rewrite flat_map_channel.
  - rewrite decide_True by exact Hin. now rewrite Hch.
  - intros c' p Hp. destruct (channels w !! c'); [|now apply not_elem_of_nil in Hp].
    now apply emit_pushes_elem in Hp.
  - exact Hnd.
Qed.

Lemma request_object_members (method : string) (params : JsonValue) (id : string) :
  request_object method params id =
  json_object
    [("jsonrpc", JString "2.0"); ("method", JString method);
     ("params", params); ("id", JString id)].
Proof.
  unfold request_object, json_object. f_equal.
Qed.

(** A write that the socket accepts appends the frame. *)
Lemma deliver_written (w : World) (k : nat) (p : Push) (ch : Channel) :
  pending w !! k = Some p ->
  channels w !! push_channel p = Some ch ->
  send_settles (socket ch) = Return tt ->
  exists w' ch',
    step (Deliver k) w = Some w' /\
    channels w' !! push_channel p = Some ch' /\
    written ch' = written ch ++ [push_frame p] /\
    listeners w' = listeners w.
Proof.
  intros Hk Hch Hsend. simpl. rewrite Hk, Hch. simpl.
  unfold emit_write, socket_send. rewrite Hsend. simpl.
  eexists _,
    (mkChannel (socket ch) (methods ch) (options ch) (methodsAndIdsStore ch)
       (written ch ++ [push_frame p]) (close_calls ch) (settled ch)).
  split; [reflexivity|]. split; [|split; reflexivity].
  apply list_lookup_insert_eq. now apply lookup_lt_is_Some; eauto.
Qed.

End FanOut.

Lemma run_channels `{Collaborators} (ls : list Label) :
  forall (w w' : World) (c : nat) (ch : Channel),
  run ls w = Some w' -> channels w !! c = Some ch ->
  exists ch', channels w' !! c = Some ch' /\ options ch' = options ch.
Proof.
  induction ls as [|l ls IH]; intros w w' c ch Hrun Hc; simpl in Hrun.
  - injection Hrun as <-. eauto.
  - destruct (step l w) as [w1|] eqn:Hstep; [|discriminate].
    destruct (frame_channels _ _ (step_frame_holds _ _ _ Hstep) c ch Hc)
      as (ch1 & Hc1 & Hopt1).
    destruct (IH _ _ _ _ Hrun Hc1) as (ch' & Hc' & Hopt').
    exists ch'. split; [exact Hc' | congruence].
Qed.

Lemma run_app `{Collaborators} (ls1 ls2 : list Label) (w : World) :
  run (ls1 ++ ls2) w =
  match run ls1 w with
  | Some w1 => run ls2 w1
  | None => None
  end.
Proof.
  revert w. induction ls1 as [|l ls1 IH]; intros w; simpl; [reflexivity|].
  destruct (step l w); [apply IH | reflexivity].
Qed.

(** C8: a channel opened with [options.disableInternalMethods] set is
    never among the listeners of ["emit"], and no callback of an event ever
    writes or waits to write to it, whatever happened before it was opened
    and whatever happens afterwards. *)
Theorem disabled_channel_never_pushed `{Collaborators}
    (before after : list Label) (sock : WebSocket) (ms : Methods) (os : Options)
    (store : gmap string (gset string)) (w0 w : World) :
  run before initial_world = Some w0 ->
  truthy_flag (disableInternalMethods os) = true ->
  run (Connect sock ms os store :: after) w0 = Some w ->
  (length (channels w0) ∉ listeners w) /\
  (forall p, p ∈ pending w ++ attempts w ->
     push_channel p <> length (channels w0)).
Proof.
  intros Hbefore Hdis Hrun.
  assert (world_invariant w) as (_ & Hls & Hps).
  { apply (reachable_invariant (before ++ Connect sock ms os store :: after)).
    now rewrite run_app, Hbefore. }
  simpl in Hrun.
  destruct (run_channels after _ w (length (channels w0))
              (mkChannel sock ms os store [] [] None) Hrun)
    as (ch & Hch & Hopt).
  { simpl. apply list_lookup_middle. reflexivity. }
  simpl in Hopt.
  assert (internal_methods_disabled ch = true) as Hch_dis
    by (unfold internal_methods_disabled; now rewrite Hopt).
  split.
  - intros Hin. destruct (Hls _ Hin) as (ch' & Hch' & Hen). congruence.
  - intros p Hp Hc. destruct (Hps p Hp) as (_ & ch' & Hch' & Hen).
    rewrite Hc in Hch'. congruence.
Qed.

Lemma disabled_channel_never_pushed_witness :
  (0%nat ∉ listeners
        (default initial_world
           (run (sample_connect open_socket (Some true) price_store ::
                 after_disabled_connect) initial_world))) /\
  forall p,
    p ∈ pending
          (default initial_world
             (run (sample_connect open_socket (Some true) price_store ::
                   after_disabled_connect) initial_world)) ++
        attempts
          (default initial_world
             (run (sample_connect open_socket (Some true) price_store ::
                   after_disabled_connect) initial_world)) ->
    push_channel p <> 0%nat.
Proof.
  apply (disabled_channel_never_pushed (H := sample_collaborators) []
           after_disabled_connect open_socket [] (Some true) price_store
           initial_world).
  - reflexivity.
  - reflexivity.
  - vm_compute. reflexivity.
Defined.

(** C4: when the write of an emission callback fails, the channel's
    listener is removed from ["emit"], the callback's promise is fulfilled
    all the same, and from then on no event starts a callback for that
    channel: every write attempted on it later belongs to an event
    dispatched before the failure. *)
Theorem failed_push_deregisters `{Collaborators}
    (labels : list Label) (w : World) (k : nat) (p : Push) (ch : Channel)
    (e : JsError) :
  run labels initial_world = Some w ->
  pending w !! k = Some p ->
  channels w !! push_channel p = Some ch ->
  send_settles (socket ch) = Throw e ->
  exists w',
    step (Deliver k) w = Some w' /\
    (forall w0, (emit_write p ch w0).2 = Return tt) /\
    (push_channel p ∉ listeners w') /\
    p ∈ attempts w' /\
    no_later_push (push_channel p) w'.
Proof.
  intros Hrun Hk Hch Hsend.
  assert (exists w', step (Deliver k) w = Some w' /\
                     listeners w' = removeEventListener (push_channel p) (listeners w) /\
                     channels w' = channels w /\
                     attempts w' = attempts w ++ [p])
    as (w' & Hstep & Hls & Hchs & Hatt).
  { simpl. rewrite Hk, Hch. simpl. unfold emit_write, socket_send.
    rewrite Hsend. simpl. eexists. repeat split. }
  exists w'. split; [exact Hstep|]. split; [|split; [|split]].
  - intros w0. unfold emit_write, socket_send. rewrite Hsend. reflexivity.
  - rewrite Hls. apply removeEventListener_gone.
  - rewrite Hatt. apply elem_of_app. right. now left.
  - apply deregistered_no_later_push.
    + apply (frame_invariant w w' (step_frame_holds _ _ _ Hstep)).
      exact (reachable_invariant _ _ Hrun).
    + rewrite Hchs. eauto.
    + rewrite Hls. apply removeEventListener_gone.
Qed.

Lemma world_dead_channel_reached :
  run dead_channel_push initial_world = Some world_dead_channel.
Proof. vm_compute. reflexivity. Qed.

Lemma failed_push_deregisters_witness :
  exists w',
    step (Deliver 0) world_dead_channel = Some w' /\
    (forall w0,
       (emit_write (mkPush 0 0 "sub-1")
          (sample_channel dead_socket None price_store) w0).2 =
       Return tt) /\
    (0%nat ∉ listeners w') /\
    mkPush 0 0 "sub-1" ∈ attempts w' /\
    no_later_push 0 w'.
Proof.
  apply (failed_push_deregisters (H := sample_collaborators) dead_channel_push
           world_dead_channel 0 (mkPush 0 0 "sub-1")
           (sample_channel dead_socket None price_store)
           (NativeError "ConnectionReset" "Socket has already been closed")).
  - exact world_dead_channel_reached.
  - vm_compute. reflexivity.
  - vm_compute. reflexivity.
  - reflexivity.
Defined.

Lemma catch_swallows (closing : Outcome unit) :
  catch_ closing (fun err => Return tt) = Return tt.
Proof. destruct closing as [[]|e]; reflexivity. Qed.

(** The [catch] block of [handleWs], field by field. *)
Lemma handleWs_catch_effect `{Collaborators} (c : nat) (ch : Channel) (w : World) :
  channels w !! c = Some ch ->
  exists ch',
    channels (handleWs_catch c ch w) !! c = Some ch' /\
    settled ch' = Some (Return tt) /\
    close_calls ch' =
      (if isClosed (socket ch) then close_calls ch else close_calls ch ++ [1000]) /\
    written ch' = written ch /\
    (internal_methods_disabled ch = false ->
     listeners (handleWs_catch c ch w) = removeEventListener c (listeners w)) /\
    (internal_methods_disabled ch = true ->
     listeners (handleWs_catch c ch w) = listeners w).
Proof.
  intros Hc.
  assert (c < length (channels w))%nat as Hlt
    by (apply lookup_lt_is_Some; eauto).
  unfold handleWs_catch, internal_methods_disabled.
  destruct (isClosed (socket ch)); simpl.
  - exists (settle (Return tt) ch).
    destruct (truthy_flag (disableInternalMethods (options ch))); simpl;
      (split; [now apply list_lookup_insert_eq|]);
      repeat split; congruence.
  - rewrite catch_swallows.
    exists (settle (Return tt) (socket_close 1000 ch).1).
    destruct (truthy_flag (disableInternalMethods (options ch))); simpl;
      (split; [now apply list_lookup_insert_eq|]);
      repeat split; congruence.
Qed.

(** C5: on a close frame the listener of the channel is gone while the
    handler loop is still running; on a failure to read, the listener is
    gone, [socket.close(1000)] has been called if the socket was not
    closed, and the handler's promise is fulfilled however that call
    settles; after either, no event starts a callback that writes to the
    channel. *)
Theorem teardown_deregisters `{Collaborators}
    (labels : list Label) (w : World) (c : nat) (ch : Channel) :
  run labels initial_world = Some w ->
  running c w = Some ch ->
  (forall code reason,
     exists w',
       step (Receive c (CloseEvent code reason)) w = Some w' /\
       (c ∉ listeners w') /\
       running c w' = Some ch /\
       no_later_push c w') /\
  (exists w' ch',
     step (ReadFailure c) w = Some w' /\
     (c ∉ listeners w') /\
     channels w' !! c = Some ch' /\
     close_calls ch' =
       (if isClosed (socket ch) then close_calls ch else close_calls ch ++ [1000]) /\
     settled ch' = Some (Return tt) /\
     no_later_push c w').
Proof.
  intros Hrun Hrunning.
  pose proof (reachable_invariant _ _ Hrun) as Hinv.
  pose proof Hrunning as Hch. apply running_Some in Hch as [Hch Hset].
  assert (internal_methods_disabled ch = true -> c ∉ listeners w) as Hdisabled.
  { intros Hdis Hin. destruct Hinv as (_ & Hls & _).
    destruct (Hls c Hin) as (ch' & Hch' & Hen). congruence. }
  split.
  - intros code reason.
    assert (exists w', step (Receive c (CloseEvent code reason)) w = Some w')
      as [w' Hstep] by (simpl; rewrite Hrunning; simpl; eauto).
    exists w'. split; [exact Hstep|].
    pose proof (step_frame_holds _ _ _ Hstep) as Hframe.
    simpl in Hstep. rewrite Hrunning in Hstep. simpl in Hstep.
    injection Hstep as Hw'.
    assert ((c ∉ listeners w') /\ channels w' = channels w) as [Hout Hchs].
    { rewrite <- Hw'.
      destruct (truthy_flag (disableInternalMethods (options ch))) eqn:Hdis;
        simpl.
      - split; [now apply Hdisabled | reflexivity].
      - split; [apply removeEventListener_gone | reflexivity]. }
    split; [exact Hout|]. split.
    + unfold running. rewrite Hchs. exact Hrunning.
    + apply deregistered_no_later_push.
      * exact (frame_invariant _ _ Hframe Hinv).
      * rewrite Hchs. eauto.
      * exact Hout.
  - assert (step (ReadFailure c) w = Some (handleWs_catch c ch w)) as Hstep
      by (simpl; now rewrite Hrunning).
    destruct (handleWs_catch_effect c ch w Hch)
      as (ch' & Hch' & Hsettled & Hclose & _ & Hen & Hdis).
    assert (c ∉ listeners (handleWs_catch c ch w)) as Hout.
    { destruct (internal_methods_disabled ch) eqn:Hd.
      - rewrite Hdis by reflexivity. now apply Hdisabled.
      - rewrite Hen by reflexivity. apply removeEventListener_gone. }
    exists (handleWs_catch c ch w), ch'.
    split; [exact Hstep|]. split; [exact Hout|]. split; [exact Hch'|].
    split; [exact Hclose|]. split; [exact Hsettled|].
    apply deregistered_no_later_push.
    + exact (frame_invariant _ _ (step_frame_holds _ _ _ Hstep) Hinv).
    + eauto.
    + exact Hout.
Qed.

Lemma world_one_channel_reached :
  run one_channel initial_world = Some world_one_channel.
Proof. vm_compute. reflexivity. Qed.

Lemma teardown_deregisters_witness :
  (forall code reason,
     exists w',
       step (sample_receive 0 (CloseEvent code reason)) world_one_channel =
         Some w' /\
       (0%nat ∉ listeners w') /\
       running 0 w' = Some (sample_channel open_socket None price_store) /\
       no_later_push 0 w') /\
  (exists w' ch',
     step (@ReadFailure sample_collaborators 0) world_one_channel = Some w' /\
     (0%nat ∉ listeners w') /\
     channels w' !! 0%nat = Some ch' /\
     close_calls ch' = [] ++ [1000] /\
     settled ch' = Some (Return tt) /\
     no_later_push 0 w').
Proof.
  apply (teardown_deregisters (H := sample_collaborators) one_channel
           world_one_channel 0 (sample_channel open_socket None price_store)).
  - exact world_one_channel_reached.
  - vm_compute. reflexivity.
Defined.

Lemma cleanBatch_omap {A R : Type} (f : A -> option R) (l : list A) :
  cleanBatch (map f l) =
  match omap f l with
  | [] => None
  | responses => Some responses
  end.
Proof. unfold cleanBatch. now rewrite omap_id_map. Qed.

(** C7: a text frame that holds a batch is answered with one frame, the
    responses of its items in arrival order without the items that give
    none; when no item gives a response, nothing is written. *)
Theorem batch_one_frame_or_none `{Collaborators}
    (w : World) (c : nat) (ch : Channel) (text : string)
    (batch : list ValidationObject) :
  running c w = Some ch ->
  validateRequest text (methods ch) = inr batch ->
  let outcome := fun validationObject =>
    createResponseObject validationObject (methods ch) (options ch) in
  let responses := omap outcome batch in
  (Some <$> responses) `sublist_of` map outcome batch /\
  (forall r, r ∈ responses <-> exists item, item ∈ batch /\ outcome item = Some r) /\
  (responses = [] ->
   text_response ch text = None /\
   step (Receive c (TextEvent text)) w = Some w) /\
  (responses <> [] ->
   text_response ch text = Some (stringify_batch responses) /\
   (send_settles (socket ch) = Return tt ->
    exists w' ch',
      step (Receive c (TextEvent text)) w = Some w' /\
      channels w' !! c = Some ch' /\
      written ch' = written ch ++ [stringify_batch responses])).
Proof.
  intros Hrunning Hbatch outcome responses.
  assert (text_response ch text =
          match responses with
          | [] => None
          | _ => Some (stringify_batch responses)
          end) as Htext.
  { unfold text_response. rewrite Hbatch.
    rewrite (cleanBatch_omap outcome). fold responses.
    now destruct responses. }
  split; [apply omap_Some_sublist|]. split; [apply list_elem_of_omap|]. split.
  - intros Hnil. rewrite Hnil in Htext. split; [exact Htext|].
    simpl. rewrite Hrunning. simpl. now rewrite Htext.
  - intros Hne.
    assert (text_response ch text = Some (stringify_batch responses)) as Hsome
      by (rewrite Htext; destruct responses; [contradiction | reflexivity]).
    split; [exact Hsome|].
    intros Hsend. apply running_Some in Hrunning as Hch. destruct Hch as [Hch _].
    eexists _,
      (mkChannel (socket ch) (methods ch) (options ch) (methodsAndIdsStore ch)
         (written ch ++ [stringify_batch responses]) (close_calls ch)
         (settled ch)).
    split; [|split; [|reflexivity]].
    + simpl. rewrite Hrunning. simpl. rewrite Hsome.
      unfold socket_send. rewrite Hsend. reflexivity.
    + simpl. apply list_lookup_insert_eq. apply lookup_lt_is_Some. eauto.
Qed.

Lemma batch_one_frame_or_none_witness :
  (exists w' ch',
     step (sample_receive 0 (TextEvent "batch")) world_one_channel = Some w' /\
     channels w' !! 0%nat = Some ch' /\
     written ch' = [] ++ ["first,second"]) /\
  step (sample_receive 0 (TextEvent "notifications")) world_one_channel =
    Some world_one_channel.
Proof.
  split.
  - destruct (batch_one_frame_or_none (H := sample_collaborators)
                world_one_channel 0 (sample_channel open_socket None price_store)
                "batch"
                [json_object [("id", JString "first")]; json_object [];
                 json_object [("id", JString "second")]])
      as (_ & _ & _ & Hframe).
    + vm_compute. reflexivity.
    + reflexivity.
    + destruct Hframe as [_ Hwritten]; [discriminate|].
      apply Hwritten. reflexivity.
  - destruct (batch_one_frame_or_none (H := sample_collaborators)
                world_one_channel 0 (sample_channel open_socket None price_store)
                "notifications" [json_object []; json_object []])
      as (_ & _ & Hnone & _).
    + vm_compute. reflexivity.
    + reflexivity.
    + apply Hnone. reflexivity.
Defined.

(** C3: an event dispatched to a registered channel.  When the store has no
    id under the method, the channel gets no callback that writes.
    Otherwise there is one callback for each subscribed id: it builds
    [{ jsonrpc: "2.0", method, params, id }], passes it through
    [validateRpcRequestObject] and [createResponseObject] as a text frame
    that decodes to the same request is, and, when there is a response,
    writes it to the channel. *)
Theorem emission_fan_out `{Collaborators}
    (labels : list Label) (w : World) (c : nat) (ch : Channel) (event : Emission) :
  run labels initial_world = Some w ->
  c ∈ listeners w ->
  channels w !! c = Some ch ->
  let ids := default ∅ (methodsAndIdsStore ch !! emission_method event) in
  let synthesized := fun id =>
    json_object
      [("jsonrpc", JString "2.0"); ("method", JString (emission_method event));
       ("params", emission_params event); ("id", JString id)] in
  let routed := fun id =>
    stringify_response <$>
      createResponseObject
        (validateRpcRequestObject (synthesized id) (methods ch))
        (methods ch) (options ch) in
  filter (fun p => push_channel p = c) (pending (dispatchEvent event w)) =
    filter (fun p => push_channel p = c) (pending w) ++
    omap (fun id => mkPush c (emissions w) <$> routed id) (elements ids) /\
  NoDup (elements ids) /\
  (forall id, id ∈ elements ids <-> id ∈ ids) /\
  (ids = ∅ ->
   filter (fun p => push_channel p = c) (pending (dispatchEvent event w)) =
   filter (fun p => push_channel p = c) (pending w)) /\
  (forall id text,
     validateRequest text (methods ch) =
       inl (validateRpcRequestObject (synthesized id) (methods ch)) ->
     text_response ch text = routed id) /\
  (forall w1 k p,
     pending w1 !! k = Some p -> push_channel p = c ->
     channels w1 !! c = Some ch ->
     send_settles (socket ch) = Return tt ->
     exists w2 ch',
       step (Deliver k) w1 = Some w2 /\
       channels w2 !! c = Some ch' /\
       written ch' = written ch ++ [push_frame p]).
Proof.
  intros Hrun Hin Hch ids synthesized routed.
  destruct (reachable_invariant _ _ Hrun) as (Hnd & _ & _).
  assert (forall id, emit_response ch event id = routed id) as Hrouted.
  { intros id. unfold emit_response, routed, synthesized.
    now rewrite request_object_members. }
  assert (filter (fun p => push_channel p = c) (pending (dispatchEvent event w)) =
          filter (fun p => push_channel p = c) (pending w) ++
          omap (fun id => mkPush c (emissions w) <$> routed id) (elements ids))
    as Hpushes.
  { rewrite (dispatchEvent_channel event w c ch Hnd Hin Hch).
    rewrite emit_pushes_ids. reflexivity. }
  split; [exact Hpushes|]. split; [apply NoDup_elements|].
  split; [intros id; apply elem_of_elements|]. split; [|split].
  - intros Hempty. rewrite Hpushes, Hempty, elements_empty. simpl.
    apply app_nil_r.
  - intros id text Htext. rewrite <- Hrouted.
    unfold text_response, emit_response. rewrite Htext.
    now rewrite request_object_members.
  - intros w1 k p Hk Hc Hch1 Hsend. rewrite <- Hc in Hch1 |- *.
    destruct (deliver_written w1 k p ch Hk Hch1 Hsend)
      as (w2 & ch' & Hstep & Hch' & Hwritten & _).
    eauto.
Qed.

Lemma world_two_channels_reached :
  run two_channels initial_world = Some world_two_channels.
Proof. vm_compute. reflexivity. Qed.

Lemma emission_fan_out_witness :
  filter (fun p => push_channel p = 0%nat)
    (pending (dispatchEvent price_event world_two_channels)) =
    [] ++ [mkPush 0 0 "sub-1"] /\
  filter (fun p => push_channel p = 1%nat)
    (pending (dispatchEvent price_event world_two_channels)) = [].
Proof.
  split.
  - destruct (emission_fan_out (H := sample_collaborators) two_channels
                world_two_channels 0
                (sample_channel open_socket None price_store) price_event)
      as (Hpushes & _).
    + exact world_two_channels_reached.
    + vm_compute. left.
    + vm_compute. reflexivity.
    + rewrite Hpushes. vm_compute. reflexivity.
  - destruct (emission_fan_out (H := sample_collaborators) two_channels
                world_two_channels 1
                (sample_channel open_socket None ∅) price_event)
      as (_ & _ & _ & Hnothing & _).
    + exact world_two_channels_reached.
    + vm_compute. right. left.
    + vm_compute. reflexivity.
    + rewrite Hnothing; [|reflexivity]. vm_compute. reflexivity.
Defined.

(** * Further properties of the code *)

(** ** Validation *)

Lemma validateRpcNotification_object (props : gmap string JsonValue) :
  validateRpcNotification (JObject props) =
  Return
    (strict_eq_string (optional_member (JObject props) "jsonrpc") "2.0" &&
     match optional_member (JObject props) "method" with
     | JString _ => true
     | _ => false
     end &&
     strict_eq_undefined (optional_member (JObject props) "id")).
Proof.
  unfold validateRpcNotification. rewrite !member_object.
  generalize (optional_member (JObject props) "jsonrpc")
             (optional_member (JObject props) "method")
             (optional_member (JObject props) "id").
  intros j m i. destruct (strict_eq_string j "2.0"); [|reflexivity].
  destruct m; try reflexivity. destruct i; reflexivity.
Qed.

(** X1: [validateRpcNotification] never throws, and answers [true] exactly
    for an object whose [jsonrpc] is ["2.0"], whose [method] is a string and
    which has no [id]. *)
Theorem validateRpcNotification_shape (v : JsonValue) :
  (exists b, validateRpcNotification v = Return b) /\
  (validateRpcNotification v = Return true <-> notification_shape v).
Proof.
  destruct v as [| | | | | |props];
    try (split; [eexists; reflexivity|];
         split; [discriminate | intros (p & m & Hv & _); discriminate]).
  rewrite validateRpcNotification_object. split; [eauto|].
  simpl. split.
  - intros [= Hb]. apply andb_prop in Hb as [Hb Hid].
    apply andb_prop in Hb as [Hj Hm].
    apply strict_eq_string_true in Hj.
    destruct (props !! "jsonrpc") as [j|] eqn:Hjson; simpl in Hj;
      [subst j | discriminate].
    destruct (props !! "method") as [[| | | |method| |]|] eqn:Hmethod;
      simpl in Hm; try discriminate.
    exists props, method.
    split; [reflexivity|]. split; [exact Hjson|]. split; [exact Hmethod|].
    destruct (props !! "id") as [[| | | | | |]|]; simpl in Hid;
      try discriminate; eauto.
  - intros (props' & method & [= <-] & Hj & Hm & Hid).
    rewrite Hj, Hm. simpl. destruct Hid as [-> | ->]; reflexivity.
Qed.

Lemma validateRpcNotification_shape_witness :
  validateRpcNotification notification_request = Return true /\
  validateRpcNotification success_response = Return false.
Proof.
  split.
  - apply (proj2 (validateRpcNotification_shape notification_request)).
    exists (list_to_map
              [("jsonrpc", JString "2.0"); ("method", JString "log");
               ("params", JArray [JNumber 1])]), "log".
    repeat split; try reflexivity. left. vm_compute. reflexivity.
  - destruct (proj1 (validateRpcNotification_shape success_response))
      as [[|] Hb]; [|exact Hb].
    apply (proj2 (validateRpcNotification_shape success_response)) in Hb.
    destruct Hb as (props & method & [= <-] & _ & Hm & _).
    vm_compute in Hm. discriminate.
Defined.

(** X2: [validateResponse] hands back the very value it was given or
    throws a [BadServerDataError]; the [in] operator and the property reads
    inside it never throw a [TypeError], whatever the value. *)
Theorem validateResponse_returns_or_structured (v : JsonValue) :
  validateResponse v = Return v \/
  exists e, validateResponse v = Throw (StructuredError e).
Proof.
  destruct v as [| | | | | |props];
    try (right; eexists; apply validateResponse_not_object; congruence).
  rewrite validateResponse_object.
  destruct (validateRpcBasis_total (JObject props)) as [-> | ->]; simpl then_;
    [|right; eauto].
  case_bool_decide; [now left|]. right.
  rewrite validateRpcFailure_object.
  destruct (optional_member (optional_member (JObject props) "error") "code")
    as [| | |code| | |] eqn:Hcode;
    destruct (optional_member (optional_member (JObject props) "error") "message")
      as [| | | |message| |] eqn:Hmessage;
    try (eexists; reflexivity).
  rewrite (failure_error_shape props code message (conj Hcode Hmessage)).
  simpl. eauto.
Qed.

(** X3: the error raised for a failure response carries [error.data] as it
    is ([undefined] when the response has none), next to the code, the
    message and the id. *)
Theorem validateResponse_failure_data
    (v id : JsonValue) (code : Z) (message : string) :
  response_basis v id -> ~ carries_result v -> failure_shape v code message ->
  validateResponse v =
  Throw (StructuredError
    (mkBadServerDataError id message code
       (optional_member (optional_member v "error") "data"))).
Proof.
  intros Hb Hr Hf.
  assert (validateRpcBasis v = Return true) as Hbasis
    by (apply validateRpcBasis_true; eauto).
  destruct Hb as (props & -> & _ & Hid & _).
  assert (~ is_Some (props !! "result")) as Hnone
    by (intros Hs; apply Hr, carries_result_object, Hs).
  assert (validateRpcFailure (JObject props) = Return true) as Hfailure
    by (apply validateRpcFailure_true; eauto).
  rewrite validateResponse_object, Hbasis. simpl then_.
  rewrite (bool_decide_eq_false_2 _ Hnone), Hfailure. simpl then_.
  rewrite (failure_error_shape props code message Hf), Hid. reflexivity.
Qed.

Lemma failure_with_data_basis : response_basis failure_with_data (JNumber 3).
Proof.
  eexists. split; [reflexivity|]. repeat split; vm_compute; reflexivity.
Qed.

Lemma failure_with_data_no_result : ~ carries_result failure_with_data.
Proof.
  intros (props & Heq & Hr). injection Heq as <-.
  vm_compute in Hr. destruct Hr as [x Hx]. discriminate.
Qed.

Lemma validateResponse_failure_data_witness :
  validateResponse failure_with_data =
  Throw (StructuredError
    (mkBadServerDataError (JNumber 3) "Invalid params" (-32602)
       (JArray [JString "x"]))).
Proof.
  apply (validateResponse_failure_data failure_with_data (JNumber 3) (-32602)
           "Invalid params").
  - exact failure_with_data_basis.
  - exact failure_with_data_no_result.
  - split; vm_compute; reflexivity.
Defined.

(** X4: a notification is never a response: what [validateRpcNotification]
    accepts, [validateResponse] rejects with code -32003 and id [null]. *)
Theorem notification_is_no_response (v : JsonValue) :
  validateRpcNotification v = Return true ->
  validateResponse v = Throw (StructuredError no_RPC_response).
Proof.
  intros Hn. apply validateRpcNotification_shape in Hn.
  destruct Hn as (props & method & -> & _ & _ & Hid).
  rewrite validateResponse_object, validateRpcBasis_object. simpl.
  destruct Hid as [-> | ->]; simpl; now rewrite andb_false_r.
Qed.

Lemma notification_is_no_response_witness :
  validateResponse notification_request =
  Throw (StructuredError no_RPC_response).
Proof.
  apply (notification_is_no_response notification_request).
  vm_compute. reflexivity.
Defined.

(** ** The HTTP client *)

Lemma call_outcome_send `{Platform}
    (server : Resource -> RequestInit -> Outcome Response)
    (createRequest : string -> JsonValue -> option bool -> JsonValue)
    (JSON_stringify : JsonValue -> string)
    (this : Client.t) (method : string) (params : JsonValue)
    (isNotification : option bool) (jwt : option string) (heap : Heap)
    (net : Client.Network) :
  (Client.call server createRequest JSON_stringify this method params
     isNotification jwt heap net).2 =
  match Client.call_init createRequest JSON_stringify this method params
          isNotification jwt heap with
  | Return made =>
      then_
        (catch_
           (then_ (server (Client.fetch_input (Client.resource this)) made.1)
              Client.send_fulfilled)
           Client.send_rejected)
        (Client.call_fulfilled isNotification)
  | Throw refused => Throw refused
  end.
Proof.
  unfold Client.call.
  destruct (Client.call_init _ _ _ _ _ _ _ _) as [made | refused]; reflexivity.
Qed.

Lemma batch_outcome_send `{Platform}
    (server : Resource -> RequestInit -> Outcome Response)
    (createRequestBatch : JsonValue -> option bool -> JsonValue)
    (JSON_stringify : JsonValue -> string)
    (this : Client.t) (batchObj : JsonValue) (isNotification : option bool)
    (heap : Heap) (net : Client.Network) :
  (Client.batch server createRequestBatch JSON_stringify this batchObj
     isNotification heap net).2 =
  then_
    (catch_
       (then_
          (server (Client.fetch_input (Client.resource this))
             (Client.batch_init createRequestBatch JSON_stringify this batchObj
                isNotification heap))
          Client.send_fulfilled)
       Client.send_rejected)
    (Client.batch_fulfilled batchObj isNotification).
Proof. reflexivity. Qed.

(** A response with a body to decode. *)
Lemma send_fulfilled_body (res : Response) :
  res_ok res = true -> res_status res <> 204 ->
  Headers_get (res_headers res) "content-length" <> Some "0" ->
  Client.send_fulfilled res = res_json res.
Proof.
  intros Hok H204 Hlen. unfold Client.send_fulfilled. rewrite Hok. simpl.
  rewrite (proj2 (Z.eqb_neq _ _) H204), bool_decide_eq_false_2 by exact Hlen.
  reflexivity.
Qed.

(** A response without a body: [res.json()] is not called. *)
Lemma send_fulfilled_no_content (res : Response) :
  res_ok res = true ->
  res_status res = 204 \/
  Headers_get (res_headers res) "content-length" = Some "0" ->
  Client.send_fulfilled res = Return JUndefined.
Proof.
  intros Hok Hempty. unfold Client.send_fulfilled. rewrite Hok. simpl.
  destruct Hempty as [-> | Hlen]; [reflexivity|].
  rewrite (bool_decide_eq_true_2 _ Hlen). now rewrite orb_true_r.
Qed.

(** X5: when [fetch] itself rejects, or when the body of a response in the
    200-299 range does not decode, [Client.batch], and [Client.call]
    whenever it has made its request, reject with a [BadServerDataError] of
    code -32001 and id [null] whose message is the message of the original
    error.  ([Client.call] makes no request when the platform refuses its
    credential as a header value: it then throws what the [Headers]
    constructor throws.) *)
Theorem transport_failure_rejects_with_32001 `{Platform}
    (server : Resource -> RequestInit -> Outcome Response)
    (createRequest : string -> JsonValue -> option bool -> JsonValue)
    (createRequestBatch : JsonValue -> option bool -> JsonValue)
    (JSON_stringify : JsonValue -> string)
    (this : Client.t) (method : string) (params batchObj : JsonValue)
    (isNotification : option bool) (jwt : option string)
    (heap : Heap) (net : Client.Network) (err : JsError) :
  (forall input init,
     server input init = Throw err \/
     exists res,
       server input init = Return res /\ res_ok res = true /\
       res_status res <> 204 /\
       Headers_get (res_headers res) "content-length" <> Some "0" /\
       res_json res = Throw err) ->
  (Client.call server createRequest JSON_stringify this method params
     isNotification jwt heap net).2 =
    match Client.call_init createRequest JSON_stringify this method params
            isNotification jwt heap with
    | Return _ =>
        Throw (StructuredError
          (mkBadServerDataError JNull (error_message err) (-32001) JUndefined))
    | Throw refused => Throw refused
    end /\
  (Client.batch server createRequestBatch JSON_stringify this batchObj
     isNotification heap net).2 =
    Throw (StructuredError
      (mkBadServerDataError JNull (error_message err) (-32001) JUndefined)).
Proof.
  intros Hserver.
  assert (forall input init,
            catch_ (then_ (server input init) Client.send_fulfilled)
              Client.send_rejected =
            Throw (StructuredError
              (mkBadServerDataError JNull (error_message err) (-32001)
                 JUndefined))) as Hsend.
  { intros input init.
    destruct (Hserver input init)
      as [-> | (res & -> & Hok & H204 & Hlen & Hjson)]; [reflexivity|].
    simpl then_. rewrite (send_fulfilled_body res Hok H204 Hlen), Hjson.
    reflexivity. }
  split.
  - rewrite call_outcome_send.
    destruct (Client.call_init _ _ _ _ _ _ _ _) as [made | refused];
      [|reflexivity].
    rewrite Hsend. reflexivity.
  - rewrite batch_outcome_send, Hsend. reflexivity.
Qed.

Lemma transport_failure_rejects_with_32001_witness :
  (Client.call (H := sample_platform) server_unreachable sample_createRequest
     sample_stringify sample_client "add" JNull None None sample_heap []).2 =
    Throw (StructuredError
      (mkBadServerDataError JNull "error sending request" (-32001) JUndefined)) /\
  (Client.batch (H := sample_platform) server_malformed
     sample_createRequestBatch sample_stringify sample_client (JArray []) None
     sample_heap []).2 =
    Throw (StructuredError
      (mkBadServerDataError JNull "Unexpected token < in JSON" (-32001)
         JUndefined)).
Proof.
  split.
  - apply (transport_failure_rejects_with_32001 (H := sample_platform)
             server_unreachable
             sample_createRequest sample_createRequestBatch sample_stringify
             sample_client "add" JNull (JArray []) None None sample_heap []
             (NativeError "TypeError" "error sending request")).
    intros input init. left. reflexivity.
  - apply (transport_failure_rejects_with_32001 (H := sample_platform)
             server_malformed
             sample_createRequest sample_createRequestBatch sample_stringify
             sample_client "add" JNull (JArray []) None None sample_heap []
             (NativeError "SyntaxError" "Unexpected token < in JSON")).
    intros input init. right. eexists. split; [reflexivity|].
    repeat split; try reflexivity; vm_compute; discriminate.
Defined.

(** X6: a response in the 200-299 range that has no body (status 204, or a
    [content-length] of ["0"]) is not decoded: [Client.call] resolves with
    nothing when it was a notification, and otherwise rejects with the
    error of code -32003 and id [null]. *)
Theorem call_without_body `{Platform}
    (server : Resource -> RequestInit -> Outcome Response)
    (createRequest : string -> JsonValue -> option bool -> JsonValue)
    (JSON_stringify : JsonValue -> string)
    (this : Client.t) (method : string) (params : JsonValue)
    (isNotification : option bool) (jwt : option string)
    (heap : Heap) (net : Client.Network) (made : RequestInit * Heap)
    (res : Response) :
  Client.call_init createRequest JSON_stringify this method params
    isNotification jwt heap = Return made ->
  server (Client.fetch_input (Client.resource this)) made.1 = Return res ->
  res_ok res = true ->
  res_status res = 204 \/
  Headers_get (res_headers res) "content-length" = Some "0" ->
  (Client.call server createRequest JSON_stringify this method params
     isNotification jwt heap net).2 =
  if truthy_flag isNotification
  then Return JUndefined
  else Throw (StructuredError no_RPC_response).
Proof.
  intros Hmade Hres Hok Hempty. rewrite call_outcome_send, Hmade, Hres.
  simpl then_.
  rewrite (send_fulfilled_no_content res Hok Hempty). simpl.
  unfold Client.call_fulfilled. simpl.
  destruct (truthy_flag isNotification); reflexivity.
Qed.

Lemma call_without_body_witness :
  (Client.call (H := sample_platform) server_204 sample_createRequest
     sample_stringify sample_client "log" JNull (Some true) None sample_heap
     []).2 = Return JUndefined /\
  (Client.call (H := sample_platform) server_204 sample_createRequest
     sample_stringify sample_client "add" JNull None None sample_heap []).2 =
    Throw (StructuredError no_RPC_response).
Proof.
  split.
  - apply (call_without_body (H := sample_platform) server_204
             sample_createRequest sample_stringify
             sample_client "log" JNull (Some true) None sample_heap []
             (mkRequestInit (Some "POST")
                [("content-type", "application/json")] (Some "{}"),
              sample_heap)
             (mkResponse 204 "No Content" []
                (Throw (NativeError "SyntaxError" "Unexpected end of JSON input"))));
      [reflexivity | reflexivity | reflexivity | left; reflexivity].
  - apply (call_without_body (H := sample_platform) server_204
             sample_createRequest sample_stringify
             sample_client "add" JNull None None sample_heap []
             (mkRequestInit (Some "POST")
                [("content-type", "application/json")] (Some "{}"),
              sample_heap)
             (mkResponse 204 "No Content" []
                (Throw (NativeError "SyntaxError" "Unexpected end of JSON input"))));
      [reflexivity | reflexivity | reflexivity | left; reflexivity].
Defined.

(** X7: when the response has a body that decodes, [Client.call] settles as
    [validateResponse(body).result] does, notification or not: it resolves
    with the [result] of a success response and rejects with the code,
    message, id and data of a failure response. *)
Theorem call_settles_as_validated_body `{Platform}
    (server : Resource -> RequestInit -> Outcome Response)
    (createRequest : string -> JsonValue -> option bool -> JsonValue)
    (JSON_stringify : JsonValue -> string)
    (this : Client.t) (method : string) (params : JsonValue)
    (isNotification : option bool) (jwt : option string)
    (heap : Heap) (net : Client.Network) (made : RequestInit * Heap)
    (res : Response) (body : JsonValue) :
  Client.call_init createRequest JSON_stringify this method params
    isNotification jwt heap = Return made ->
  server (Client.fetch_input (Client.resource this)) made.1 = Return res ->
  res_ok res = true ->
  res_status res <> 204 ->
  Headers_get (res_headers res) "content-length" <> Some "0" ->
  res_json res = Return body ->
  body <> JUndefined ->
  let settled :=
    (Client.call server createRequest JSON_stringify this method params
       isNotification jwt heap net).2 in
  settled = validated_result body /\
  (forall id, response_basis body id -> carries_result body ->
     settled = Return (optional_member body "result")) /\
  (forall id code message,
     response_basis body id -> ~ carries_result body ->
     failure_shape body code message ->
     settled =
     Throw (StructuredError
       (mkBadServerDataError id message code
          (optional_member (optional_member body "error") "data")))).
Proof.
  intros Hmade Hres Hok H204 Hlen Hjson Hdefined settled.
  assert (settled = validated_result body) as Hsettled.
  { unfold settled. rewrite call_outcome_send, Hmade, Hres. simpl then_.
    rewrite (send_fulfilled_body res Hok H204 Hlen), Hjson. simpl.
    unfold Client.call_fulfilled.
    destruct body; try reflexivity. congruence. }
  split; [exact Hsettled|]. split.
  - intros id Hb Hr. rewrite Hsettled.
    exact (validated_result_success body id _ Hb eq_refl Hr).
  - intros id code message Hb Hr Hf. rewrite Hsettled.
    unfold validated_result.
    now rewrite (validateResponse_failure body id code message Hb Hr Hf).
Qed.

Lemma call_settles_as_validated_body_witness :
  (Client.call (H := sample_platform) (server_200 success_response)
     sample_createRequest sample_stringify sample_client "add" JNull
     (Some true) None sample_heap []).2 =
    Return (JString "ok") /\
  (Client.call (H := sample_platform) (server_200 failure_with_data)
     sample_createRequest sample_stringify sample_client "add" JNull None None
     sample_heap []).2 =
    Throw (StructuredError
      (mkBadServerDataError (JNumber 3) "Invalid params" (-32602)
         (JArray [JString "x"]))).
Proof.
  split.
  - destruct (call_settles_as_validated_body (H := sample_platform)
                (server_200 success_response)
                sample_createRequest sample_stringify sample_client "add" JNull
                (Some true) None sample_heap []
                (mkRequestInit (Some "POST")
                   [("content-type", "application/json")] (Some "{}"),
                 sample_heap)
                (mkResponse 200 "OK" [("content-type", "application/json")]
                   (Return success_response))
                success_response)
      as (_ & Hsuccess & _);
      [reflexivity | reflexivity | reflexivity | discriminate
      | vm_compute; discriminate | reflexivity | discriminate |].
    exact (Hsuccess (JNumber 7) success_response_basis success_response_result).
  - destruct (call_settles_as_validated_body (H := sample_platform)
                (server_200 failure_with_data)
                sample_createRequest sample_stringify sample_client "add" JNull
                None None sample_heap []
                (mkRequestInit (Some "POST")
                   [("content-type", "application/json")] (Some "{}"),
                 sample_heap)
                (mkResponse 200 "OK" [("content-type", "application/json")]
                   (Return failure_with_data))
                failure_with_data)
      as (_ & _ & Hfailure);
      [reflexivity | reflexivity | reflexivity | discriminate
      | vm_compute; discriminate | reflexivity | discriminate |].
    apply (Hfailure (JNumber 3) (-32602) "Invalid params").
    + exact failure_with_data_basis.
    + exact failure_with_data_no_result.
    + split; vm_compute; reflexivity.
Defined.

Section BatchFurther.

Context `{Platform}.

Lemma processBatchArray_app (before after : list JsonValue) :
  Client.processBatchArray (before ++ after) =
  let! first := Client.processBatchArray before in
  let! rest := Client.processBatchArray after in
  Return (first ++ rest).
Proof.
  induction before as [|b before IH]; simpl.
  - destruct (Client.processBatchArray after); reflexivity.
  - destruct (validated_result b) as [x|e]; simpl; [|reflexivity].
    rewrite IH. destruct (Client.processBatchArray before) as [xs|e]; simpl;
      [|reflexivity].
    destruct (Client.processBatchArray after); reflexivity.
Qed.

Lemma processBatchObject_from_app (before after : list JsonValue) :
  forall acc : gmap string JsonValue,
  Client.processBatchObject_from acc (before ++ after) =
  let! acc' := Client.processBatchObject_from acc before in
  Client.processBatchObject_from acc' after.
Proof.
  induction before as [|b before IH]; intros acc; simpl; [reflexivity|].
  destruct (Client.processBatchObject_step acc b) as [acc'|e]; simpl;
    [apply IH | reflexivity].
Qed.

(** X8: a batch reply is all or nothing: [processBatchArray], and with it
    [Client.batch] for a sequence input, throws the error of the first
    response that does not validate, whatever the responses after it; the
    results of the responses before it are dropped. *)
Theorem batch_array_first_failure
    (batchObj : JsonValue) (isNotification : option bool)
    (before after : list JsonValue) (r : JsonValue) (e : JsError) :
  Array_isArray batchObj = true ->
  Forall (fun b => exists result, validated_result b = Return result) before ->
  validated_result r = Throw e ->
  Client.processBatchArray (before ++ r :: after) = Throw e /\
  Client.batch_fulfilled batchObj isNotification (JArray (before ++ r :: after)) =
    Throw e.
Proof.
  intros Harray Hbefore Hr.
  assert (Client.processBatchArray (before ++ r :: after) = Throw e) as Hthrow.
  { rewrite processBatchArray_app.
    destruct (processBatchArray_total before Hbefore) as [results ->].
    simpl. now rewrite Hr. }
  split; [exact Hthrow|].
  rewrite batch_fulfilled_array by (now destruct before).
  now rewrite Harray, Hthrow.
Qed.

(** X9: a [null] or [undefined] element in the reply is reported
    differently by the two kinds of batch: [processBatchArray] throws the
    [BadServerDataError] of code -32003, while [processBatchObject] reads
    [rpcResponse.id] before it validates and throws a [TypeError]. *)
Theorem batch_null_element
    (before after : list JsonValue) (r : JsonValue) :
  r = JNull \/ r = JUndefined ->
  Forall (fun b => exists result, validated_result b = Return result) before ->
  Client.processBatchArray (before ++ r :: after) =
    Throw (StructuredError no_RPC_response) /\
  exists message,
    Client.processBatchObject (before ++ r :: after) =
      Throw (NativeError "TypeError" message).
Proof.
  intros Hr Hbefore. split.
  - rewrite processBatchArray_app.
    destruct (processBatchArray_total before Hbefore) as [results ->].
    destruct Hr as [-> | ->]; reflexivity.
  - unfold Client.processBatchObject. rewrite processBatchObject_from_app.
    destruct (processBatchObject_from_total before ∅ Hbefore) as [m ->].
    destruct Hr as [-> | ->]; eexists; reflexivity.
Qed.

(** An assignment that does not store its key leaves the keys as they
    were. *)
Lemma dom_set_property (acc : gmap string JsonValue) (key : string)
    (value : JsonValue) :
  dom (set_property acc key value) =
  dom acc ∪ list_to_set (filter (fun k => assigns_own_property k = true) [key]).
Proof.
  unfold set_property. rewrite filter_cons, filter_nil.
  destruct (assigns_own_property key) eqn:Hown.
  - rewrite decide_True by reflexivity. rewrite dom_insert_L.
    rewrite list_to_set_cons. simpl. rewrite (right_id_L ∅ (∪)).
    apply (comm_L (∪)).
  - rewrite decide_False by discriminate. simpl.
    now rewrite (right_id_L ∅ (∪)).
Qed.

Lemma processBatchObject_from_dom (items : list JsonValue) :
  forall acc m : gmap string JsonValue,
  Client.processBatchObject_from acc items = Return m ->
  dom m =
  dom acc ∪
  list_to_set
    (filter (fun k => assigns_own_property k = true) (response_key <$> items)).
Proof.
  induction items as [|r items IH]; intros acc m Hm.
  - injection Hm as <-. simpl. now rewrite (right_id_L ∅ (∪)).
  - apply processBatchObject_from_cons in Hm as (x & _ & Hrest).
    rewrite (IH _ _ Hrest), dom_set_property, fmap_cons.
    change (response_key r :: (response_key <$> items))
      with ([response_key r] ++ (response_key <$> items)).
    rewrite filter_app, list_to_set_app_L. now rewrite (assoc_L (∪)).
Qed.

Lemma filter_assigned (items : list JsonValue) :
  Forall (fun r => assigns_own_property (response_key r) = true) items ->
  filter (fun k => assigns_own_property k = true) (response_key <$> items) =
  response_key <$> items.
Proof.
  intros Hall. apply filter_all, Forall_fmap. exact Hall.
Qed.

End BatchFurther.

Lemma batch_array_first_failure_witness :
  Client.processBatchArray [success_response; failure_response; success_response] =
    Throw (StructuredError
      (mkBadServerDataError (JString "a") "Method not found" (-32601)
         JUndefined)) /\
  Client.batch_fulfilled (H := sample_platform) (JArray []) None
    (JArray [success_response; failure_response; success_response]) =
    Throw (StructuredError
      (mkBadServerDataError (JString "a") "Method not found" (-32601)
         JUndefined)).
Proof.
  apply (batch_array_first_failure (H := sample_platform) (JArray []) None
           [success_response] [success_response] failure_response).
  - reflexivity.
  - constructor; [|constructor]. exists (JString "ok"). vm_compute. reflexivity.
  - vm_compute. reflexivity.
Defined.

Lemma batch_null_element_witness :
  Client.processBatchArray [success_response; JNull] =
    Throw (StructuredError no_RPC_response) /\
  exists message,
    Client.processBatchObject (H := sample_platform) [success_response; JNull] =
      Throw (NativeError "TypeError" message).
Proof.
  apply (batch_null_element (H := sample_platform) [success_response] [] JNull).
  - left. reflexivity.
  - constructor; [|constructor]. exists (JString "ok"). vm_compute. reflexivity.
Defined.

(** X10: the keys of the mapping [processBatchObject] returns are exactly
    the property keys of the ids of the responses, as the platform prints
    them, that an assignment stores: one entry for each distinct key; when
    the keys are pairwise distinct and all stored, the mapping has as many
    entries as the reply has responses. *)
Theorem processBatchObject_keys `{Platform}
    (items : list JsonValue) (m : gmap string JsonValue) :
  Client.processBatchObject items = Return m ->
  dom m =
    list_to_set
      (filter (fun k => assigns_own_property k = true)
         (response_key <$> items)) /\
  (NoDup (response_key <$> items) ->
   Forall (fun r => assigns_own_property (response_key r) = true) items ->
   size m = length items).
Proof.
  intros Hm.
  assert (dom m =
          list_to_set
            (filter (fun k => assigns_own_property k = true)
               (response_key <$> items))) as Hdom.
  { rewrite (processBatchObject_from_dom items ∅ m Hm), dom_empty_L.
    apply (left_id_L ∅ (∪)). }
  split; [exact Hdom|].
  intros Hnd Hall.
  rewrite <- size_dom, Hdom, (filter_assigned items Hall).
  rewrite size_list_to_set by exact Hnd.
  apply length_fmap.
Qed.

Lemma processBatchObject_keys_witness :
  exists m,
    Client.processBatchObject (H := sample_platform)
      [success_response; mixed_response] = Return m /\
    dom m = {[ "7"; "1" ]} /\
    size m = 2%nat.
Proof.
  destruct (Client.processBatchObject (H := sample_platform)
              [success_response; mixed_response])
    as [m|e] eqn:Hm; [|vm_compute in Hm; discriminate].
  exists m. split; [reflexivity|].
  destruct (processBatchObject_keys (H := sample_platform) _ m Hm)
    as [Hdom Hsize].
  split.
  - rewrite Hdom. vm_compute. reflexivity.
  - apply Hsize.
    + vm_compute. constructor; [|constructor; [|constructor]].
      * intros Hin. apply list_elem_of_singleton in Hin. discriminate.
      * apply not_elem_of_nil.
    + repeat constructor.
Defined.






(** ** The WebSocket handler *)

Section HandlerProperties.

Context `{Collaborators}.

Lemma removeEventListener_other (c c' : nat) (ls : list nat) :
  c' <> c -> c' ∈ removeEventListener c ls <-> c' ∈ ls.
Proof.
  intros Hne. unfold removeEventListener. rewrite list_elem_of_filter. tauto.
Qed.

(** What the [catch] block and the body of the loop touch. *)
Lemma handleWs_catch_local (c : nat) (ch : Channel) (w : World) :
  (forall c', c' <> c ->
     channels (handleWs_catch c ch w) !! c' = channels w !! c' /\
     (c' ∈ listeners (handleWs_catch c ch w) <-> c' ∈ listeners w)) /\
  pending (handleWs_catch c ch w) = pending w /\
  attempts (handleWs_catch c ch w) = attempts w /\
  emissions (handleWs_catch c ch w) = emissions w.
Proof.
  unfold handleWs_catch.
  destruct (negb (truthy_flag _)), (negb (isClosed _)); simpl;
    (split; [|repeat split]); intros c' Hne;
    (split; [now apply list_lookup_insert_ne|]);
    solve [reflexivity | now apply removeEventListener_other].
Qed.

Lemma handleWs_event_local (c : nat) (ev : WebSocketEvent) (ch : Channel)
    (w : World) :
  (forall c', c' <> c ->
     channels (handleWs_event c ev ch w) !! c' = channels w !! c' /\
     (c' ∈ listeners (handleWs_event c ev ch w) <-> c' ∈ listeners w)) /\
  pending (handleWs_event c ev ch w) = pending w /\
  attempts (handleWs_event c ev ch w) = attempts w /\
  emissions (handleWs_event c ev ch w) = emissions w.
Proof.
  destruct ev as [text| |body|body|code reason]; simpl;
    try (split; [intros c' Hne; split; reflexivity | repeat split]).
  - destruct (text_response ch text) as [frame|];
      [|split; [intros c' Hne; split; reflexivity | repeat split]].
    destruct (socket_send frame ch) as [ch' [[]|e]].
    + simpl. split; [|repeat split]. intros c' Hne.
      split; [now apply list_lookup_insert_ne | reflexivity].
    + apply handleWs_catch_local.
  - destruct (negb (truthy_flag _)); simpl;
      (split; [|repeat split]); intros c' Hne;
      (split; [reflexivity|]);
      solve [reflexivity | now apply removeEventListener_other].
Qed.

(** X14: the handler of a channel touches nothing but its own channel:
    whatever it reads from its socket, the other channels and their
    listeners are as before, and no callback that is waiting to write is
    cancelled or started. *)
Theorem handler_touches_its_own_channel (c : nat) (l : Label) (w w' : World) :
  handler_step c l ->
  step l w = Some w' ->
  (forall c', c' <> c ->
     channels w' !! c' = channels w !! c' /\
     (c' ∈ listeners w' <-> c' ∈ listeners w)) /\
  pending w' = pending w /\
  attempts w' = attempts w /\
  emissions w' = emissions w.
Proof.
  destruct l as [sock ms os store|c0 ev|c0|c0|c0 sock|c0 store|event|k];
    simpl; try contradiction; intros ->;
    (destruct (running c w) as [ch|] eqn:Hrun; [|discriminate]);
    simpl; intros [= <-].
  - apply handleWs_event_local.
  - apply handleWs_catch_local.
  - simpl. split; [|repeat split]. intros c' Hne.
    split; [now apply list_lookup_insert_ne | reflexivity].
Qed.

End HandlerProperties.

Lemma handler_touches_its_own_channel_witness :
  exists w',
    step (sample_receive 0 (CloseEvent 1001 "going away")) world_two_channels =
      Some w' /\
    channels w' !! 1%nat = channels world_two_channels !! 1%nat /\
    (1%nat ∈ listeners w' <-> 1%nat ∈ listeners world_two_channels) /\
    pending w' = pending world_two_channels.
Proof.
  destruct (step (sample_receive 0 (CloseEvent 1001 "going away"))
              world_two_channels) as [w'|] eqn:Hstep;
    [|vm_compute in Hstep; discriminate].
  exists w'. split; [reflexivity|].
  destruct (handler_touches_its_own_channel (H := sample_collaborators) 0
              (sample_receive 0 (CloseEvent 1001 "going away"))
              world_two_channels w' eq_refl Hstep) as (Hothers & Hpending & _).
  destruct (Hothers 1%nat) as [Hchannel Hlistener]; [discriminate|].
  split; [exact Hchannel|]. split; [exact Hlistener | exact Hpending].
Defined.

Section ReplyProperties.

Context `{Collaborators}.

(** X12: a text frame that holds one request is answered with the
    serialized response of the Builder, written once to the socket of the
    channel; when the Builder gives nothing (a notification), nothing is
    written and nothing changes. *)
Theorem single_request_reply
    (w : World) (c : nat) (ch : Channel) (text : string)
    (validationObject : ValidationObject) :
  running c w = Some ch ->
  validateRequest text (methods ch) = inl validationObject ->
  (createResponseObject validationObject (methods ch) (options ch) = None ->
   step (Receive c (TextEvent text)) w = Some w) /\
  (forall response,
     createResponseObject validationObject (methods ch) (options ch) =
       Some response ->
     send_settles (socket ch) = Return tt ->
     exists w' ch',
       step (Receive c (TextEvent text)) w = Some w' /\
       channels w' !! c = Some ch' /\
       written ch' = written ch ++ [stringify_response response] /\
       settled ch' = None /\
       listeners w' = listeners w).
Proof.
  intros Hrunning Hsingle.
  assert (text_response ch text =
          stringify_response <$>
            createResponseObject validationObject (methods ch) (options ch))
    as Htext by (unfold text_response; now rewrite Hsingle).
  split.
  - intros Hnone. simpl. rewrite Hrunning. simpl.
    now rewrite Htext, Hnone.
  - intros response Hsome Hsend.
    apply running_Some in Hrunning as Hch. destruct Hch as [Hch Hsettled].
    eexists _,
      (mkChannel (socket ch) (methods ch) (options ch) (methodsAndIdsStore ch)
         (written ch ++ [stringify_response response]) (close_calls ch)
         (settled ch)).
    split.
    { simpl. rewrite Hrunning. simpl. rewrite Htext, Hsome. simpl.
      unfold socket_send. rewrite Hsend. reflexivity. }
    split.
    { simpl. apply list_lookup_insert_eq. apply lookup_lt_is_Some. eauto. }
    split; [reflexivity|]. split; [exact Hsettled | reflexivity].
Qed.

(** X13: when the write of a reply fails, the handler ends as it does on a
    failure to read: the frame is not written, the listener of the channel
    is removed, [socket.close(1000)] is called if the socket is not closed,
    the handler's promise is fulfilled, and no further event of the socket
    is read. *)
Theorem failed_reply_ends_handler
    (labels : list Label) (w : World) (c : nat) (ch : Channel)
    (text frame : string) (e : JsError) :
  run labels initial_world = Some w ->
  running c w = Some ch ->
  text_response ch text = Some frame ->
  send_settles (socket ch) = Throw e ->
  exists w' ch',
    step (Receive c (TextEvent text)) w = Some w' /\
    (c ∉ listeners w') /\
    channels w' !! c = Some ch' /\
    written ch' = written ch /\
    close_calls ch' =
      (if isClosed (socket ch) then close_calls ch else close_calls ch ++ [1000]) /\
    settled ch' = Some (Return tt) /\
    (forall ev, step (Receive c ev) w' = None).
Proof.
  intros Hrun Hrunning Htext Hsend.
  pose proof (reachable_invariant _ _ Hrun) as (_ & Hls & _).
  apply running_Some in Hrunning as Hch. destruct Hch as [Hch _].
  assert (step (Receive c (TextEvent text)) w = Some (handleWs_catch c ch w))
    as Hstep.
  { simpl. rewrite Hrunning. simpl. rewrite Htext.
    unfold socket_send. now rewrite Hsend. }
  destruct (handleWs_catch_effect c ch w Hch)
    as (ch' & Hch' & Hsettled & Hclose & Hwritten & Hen & Hdis).
  exists (handleWs_catch c ch w), ch'.
  split; [exact Hstep|]. split; [|split; [exact Hch'|]].
  - destruct (internal_methods_disabled ch) eqn:Hd.
    + rewrite Hdis by reflexivity. intros Hin.
      destruct (Hls c Hin) as (ch0 & Hch0 & Hen0). congruence.
    + rewrite Hen by reflexivity. apply removeEventListener_gone.
  - split; [exact Hwritten|]. split; [exact Hclose|].
    split; [exact Hsettled|].
    intros ev. simpl. unfold running. now rewrite Hch', Hsettled.
Qed.

(** A channel after a step, against the channel before it. *)
Lemma evolves_refl (ch : Channel) : channel_evolves ch ch.
Proof. repeat split; auto. Qed.

Lemma history_insert (chs : list Channel) (c : nat) (ch ch1 : Channel) :
  chs !! c = Some ch -> channel_evolves ch ch1 ->
  forall c' ch', <[c := ch1]> chs !! c' = Some ch' ->
    exists ch0, chs !! c' = Some ch0 /\ channel_evolves ch0 ch'.
Proof.
  intros Hc Hev c' ch' Hc'.
  apply list_lookup_insert_Some in Hc' as [(<- & <- & _) | (_ & Hc')].
  - eauto.
  - exists ch'. split; [exact Hc' | apply evolves_refl].
Qed.

Lemma evolves_send (frame : string) (ch : Channel) :
  channel_evolves ch (socket_send frame ch).1.
Proof.
  unfold socket_send. destruct (send_settles (socket ch)); simpl;
    [|apply evolves_refl].
  split; [reflexivity|]. split; [reflexivity|].
  split; [now apply prefix_app_r | left; split; reflexivity].
Qed.

Lemma catch_channels (c : nat) (ch : Channel) (w : World) :
  settled ch = None ->
  exists ch1,
    channels (handleWs_catch c ch w) = <[c := ch1]> (channels w) /\
    channel_evolves ch ch1.
Proof.
  intros Hrunning. unfold handleWs_catch.
  destruct (isClosed (socket ch)) eqn:Hclosed; simpl.
  - exists (settle (Return tt) ch). split.
    + now destruct (negb (truthy_flag _)).
    + repeat split; auto. right. repeat split; auto.
  - rewrite catch_swallows.
    exists (settle (Return tt) (socket_close 1000 ch).1). split.
    + now destruct (negb (truthy_flag _)).
    + repeat split; auto. right. repeat split; auto.
Qed.

Lemma step_channel_history (l : Label) (w w' : World) :
  step l w = Some w' ->
  forall c ch', channels w' !! c = Some ch' ->
    (exists ch, channels w !! c = Some ch /\ channel_evolves ch ch') \/
    (channels w !! c = None /\ settled ch' = None /\
     close_calls ch' = [] /\ written ch' = []).
Proof.
  assert (forall c ch', channels w !! c = Some ch' ->
            exists ch, channels w !! c = Some ch /\ channel_evolves ch ch')
    as Hsame by (intros c ch' Hc; exists ch'; split; [exact Hc | apply evolves_refl]).
  destruct l as [sock ms os store|c0 ev|c0|c0|c0 sock|c0 store|event|k]; simpl.
  - intros [= <-] c ch' Hc. simpl in Hc.
    apply lookup_snoc_Some in Hc as [[_ Hc] | [-> <-]].
    + left. now apply Hsame.
    + right. split; [now apply lookup_ge_None|]. repeat split.
  - destruct (running c0 w) as [ch|] eqn:Hrun; [|discriminate].
    apply running_Some in Hrun as [Hc0 Hnone]. simpl. intros [= <-] c ch' Hc.
    left. destruct ev as [text| |body|body|code reason]; simpl in Hc;
      try (now apply Hsame).
    + destruct (text_response ch text) as [frame|]; [|now apply Hsame].
      pose proof (evolves_send frame ch) as Hev.
      destruct (socket_send frame ch) as [ch1 [[]|e]] eqn:Hsend; simpl in Hev.
      * exact (history_insert _ _ _ _ Hc0 Hev c ch' Hc).
      * assert (ch1 = ch) as ->.
        { unfold socket_send in Hsend.
          destruct (send_settles (socket ch)); now injection Hsend. }
        destruct (catch_channels c0 ch w Hnone) as (ch2 & Heq & Hev2).
        rewrite Heq in Hc. exact (history_insert _ _ _ _ Hc0 Hev2 c ch' Hc).
    + destruct (negb (truthy_flag _)); now apply Hsame.
  - destruct (running c0 w) as [ch|] eqn:Hrun; [|discriminate].
    apply running_Some in Hrun as [Hc0 Hnone]. simpl. intros [= <-] c ch' Hc.
    left. destruct (catch_channels c0 ch w Hnone) as (ch2 & Heq & Hev2).
    rewrite Heq in Hc. exact (history_insert _ _ _ _ Hc0 Hev2 c ch' Hc).
  - destruct (running c0 w) as [ch|] eqn:Hrun; [|discriminate].
    apply running_Some in Hrun as [Hc0 Hnone]. simpl. intros [= <-] c ch' Hc.
    left. simpl in Hc. refine (history_insert _ _ _ _ Hc0 _ c ch' Hc).
    repeat split; auto. right. repeat split; auto.
  - destruct (channels w !! c0) as [ch|] eqn:Hc0; [|discriminate].
    simpl. intros [= <-] c ch' Hc. left. simpl in Hc.
    refine (history_insert _ _ _ _ Hc0 _ c ch' Hc). repeat split; auto.
  - destruct (channels w !! c0) as [ch|] eqn:Hc0; [|discriminate].
    simpl. intros [= <-] c ch' Hc. left. simpl in Hc.
    refine (history_insert _ _ _ _ Hc0 _ c ch' Hc). repeat split; auto.
  - intros [= <-] c ch' Hc. left. now apply Hsame.
  - destruct (pending w !! k) as [p|] eqn:Hk; [|discriminate].
    destruct (channels w !! push_channel p) as [ch|] eqn:Hc0; [|discriminate].
    simpl. intros [= <-] c ch' Hc. left. unfold emit_write in Hc.
    pose proof (evolves_send (push_frame p) ch) as Hev.
    destruct (socket_send (push_frame p) ch) as [ch1 [[]|e]]; simpl in Hev, Hc.
    + exact (history_insert _ _ _ _ Hc0 Hev c ch' Hc).
    + now apply Hsame.
Qed.

Lemma evolves_handler_state (ch ch' : Channel) :
  channel_evolves ch ch' -> handler_state_ok ch -> handler_state_ok ch'.
Proof.
  intros (_ & _ & _ & Hev) Hok. unfold handler_state_ok in *.
  destruct Hev as [[-> ->] | (Hnone & -> & _ & Hclose)]; [exact Hok|].
  right. split; [reflexivity|].
  destruct Hok as [[_ Hempty] | [Hsome _]]; [|congruence].
  rewrite Hempty in Hclose. destruct Hclose as [-> | [_ ->]]; auto.
Qed.

Lemma run_handler_state (ls : list Label) :
  forall w w' : World,
  run ls w = Some w' ->
  (forall c ch, channels w !! c = Some ch -> handler_state_ok ch) ->
  forall c ch, channels w' !! c = Some ch -> handler_state_ok ch.
Proof.
  induction ls as [|l ls IH]; intros w w' Hrun Hok; simpl in Hrun.
  - now injection Hrun as <-.
  - destruct (step l w) as [w1|] eqn:Hstep; [|discriminate].
    apply (IH w1 w' Hrun). intros c ch Hc.
    destruct (step_channel_history _ _ _ Hstep c ch Hc)
      as [(ch0 & Hc0 & Hev) | (_ & Hnone & Hclose & _)].
    + exact (evolves_handler_state _ _ Hev (Hok _ _ Hc0)).
    + left. now split.
Qed.

(** X15: whatever happens, the promise of [handleWs] is never rejected (it
    is pending or fulfilled), and the handler calls [socket.close] at most
    once, with code 1000, and only as it ends. *)
Theorem handler_never_rejects
    (labels : list Label) (w : World) (c : nat) (ch : Channel) :
  run labels initial_world = Some w ->
  channels w !! c = Some ch ->
  (settled ch = None /\ close_calls ch = []) \/
  (settled ch = Some (Return tt) /\
   (close_calls ch = [] \/ close_calls ch = [1000])).
Proof.
  intros Hrun Hc.
  apply (run_handler_state labels initial_world w Hrun) with (c := c);
    [|exact Hc].
  intros c0 ch0 Hc0. simpl in Hc0. now rewrite lookup_nil in Hc0.
Qed.

(** X16: when the events of a socket end without a close frame and without
    an error, the handler's promise is fulfilled but its listener stays
    registered: every event dispatched afterwards still starts, for each id
    subscribed under its method, a callback that writes to the channel. *)
Theorem end_without_close_keeps_listener
    (labels : list Label) (w : World) (c : nat) (ch : Channel) :
  run labels initial_world = Some w ->
  running c w = Some ch ->
  c ∈ listeners w ->
  exists w',
    step (EndOfEvents c) w = Some w' /\
    running c w' = None /\
    c ∈ listeners w' /\
    forall event,
      filter (fun p => push_channel p = c) (pending (dispatchEvent event w')) =
      filter (fun p => push_channel p = c) (pending w) ++
      omap (fun id => mkPush c (emissions w) <$> emit_response ch event id)
        (elements (default ∅ (methodsAndIdsStore ch !! emission_method event))).
Proof.
  intros Hrun Hrunning Hin.
  pose proof (reachable_invariant _ _ Hrun) as (Hnd & _ & _).
  apply running_Some in Hrunning as Hch. destruct Hch as [Hch _].
  assert (c < length (channels w))%nat as Hlt
    by (apply lookup_lt_is_Some; eauto).
  exists (set_channel c (settle (Return tt) ch) w).
  split; [simpl; now rewrite Hrunning|]. split; [|split; [exact Hin|]].
  - unfold running. simpl. now rewrite list_lookup_insert_eq.
  - intros event.
    rewrite (dispatchEvent_channel event _ c (settle (Return tt) ch));
      [|exact Hnd | exact Hin | now apply list_lookup_insert_eq].
    rewrite emit_pushes_ids. reflexivity.
Qed.

End ReplyProperties.

Lemma single_request_reply_witness :
  exists w' ch',
    step (sample_receive 0 (TextEvent "hello")) world_one_channel = Some w' /\
    channels w' !! 0%nat = Some ch' /\
    written ch' = [] ++ ["hello"] /\
    settled ch' = None /\
    listeners w' = listeners world_one_channel.
Proof.
  destruct (single_request_reply (H := sample_collaborators) world_one_channel 0
              (sample_channel open_socket None price_store) "hello"
              (json_object [("id", JString "hello")]))
    as [_ Hreply].
  - vm_compute. reflexivity.
  - reflexivity.
  - apply (Hreply (json_object [("id", JString "hello")])); reflexivity.
Defined.

Lemma world_dead_reply_reached :
  run dead_channel initial_world = Some world_dead_reply.
Proof. vm_compute. reflexivity. Qed.

Lemma failed_reply_ends_handler_witness :
  exists w' ch',
    step (sample_receive 0 (TextEvent "hello")) world_dead_reply = Some w' /\
    (0%nat ∉ listeners w') /\
    channels w' !! 0%nat = Some ch' /\
    written ch' = [] /\
    close_calls ch' = [] ++ [1000] /\
    settled ch' = Some (Return tt) /\
    (forall ev, step (sample_receive 0 ev) w' = None).
Proof.
  apply (failed_reply_ends_handler (H := sample_collaborators) dead_channel
           world_dead_reply 0 (sample_channel dead_socket None price_store)
           "hello" "hello"
           (NativeError "ConnectionReset" "Socket has already been closed")).
  - exact world_dead_reply_reached.
  - vm_compute. reflexivity.
  - vm_compute. reflexivity.
  - reflexivity.
Defined.

Lemma world_failed_read_reached :
  run failed_read initial_world = Some world_failed_read.
Proof. vm_compute. reflexivity. Qed.

Lemma handler_never_rejects_witness :
  exists ch,
    channels world_failed_read !! 0%nat = Some ch /\
    ((settled ch = None /\ close_calls ch = []) \/
     (settled ch = Some (Return tt) /\
      (close_calls ch = [] \/ close_calls ch = [1000]))).
Proof.
  destruct (channels world_failed_read !! 0%nat) as [ch|] eqn:Hch;
    [|vm_compute in Hch; discriminate].
  exists ch. split; [reflexivity|].
  exact (handler_never_rejects (H := sample_collaborators) failed_read
           world_failed_read 0 ch world_failed_read_reached Hch).
Defined.

Lemma end_without_close_keeps_listener_witness :
  exists w',
    step (sample_end 0) world_one_channel = Some w' /\
    running 0 w' = None /\
    0%nat ∈ listeners w' /\
    forall event,
      filter (fun p => push_channel p = 0%nat)
        (pending (dispatchEvent event w')) =
      filter (fun p => push_channel p = 0%nat) (pending world_one_channel) ++
      omap (fun id =>
              mkPush 0 (emissions world_one_channel) <$>
                emit_response (sample_channel open_socket None price_store)
                  event id)
        (elements (default ∅ (price_store !! emission_method event))).
Proof.
  apply (end_without_close_keeps_listener (H := sample_collaborators)
           one_channel world_one_channel 0
           (sample_channel open_socket None price_store)).
  - exact world_one_channel_reached.
  - vm_compute. reflexivity.
  - vm_compute. left.
Defined.
